(** * A shallow embedding of the [grouper] package (buffer.py, grouper.py,
    combiner.py, aligner.py) and the properties of its grouping operators.

    Conventions of the embedding:
    - Python exceptions are values of [exn]; a method that may raise returns
      [result A] and the stdpp's [x ← m; k] notation threads them.
    - Times are exact rationals [Q] (float-valued times, with exact
      arithmetic); Python's true division [a / b] is [Qdiv] guarded by a
      [ZeroDivisionError] check, and [int(q)] truncates toward zero.
    - Integer sizes and lengths are [Z]; Python 2 integer division is floor
      division ([Z.div]).
    - A Python dict built as [{topic: v for topic in topics}] is a
      [gmap string V]; a read of a missing key raises [KeyError].
    - Each [while] loop whose termination depends on a positive duration is
      run with an explicit fuel; running out of fuel is reported as
      [Diverges]. *)

From Stdlib Require Import QArith Qround Lqa ZArith Lia.
From stdpp Require Import base gmap strings list.
From Stdlib Require Import Sorted.

Open Scope Q_scope.

(* ===================================================================== *)
(** ** Python runtime: exceptions, results, comparisons *)
(* ===================================================================== *)

Inductive exn :=
| StopIteration
| IndexError
| KeyError
| ZeroDivisionError
| NameError (name : string)
| AttributeError (name : string)
| TypeError
| Diverges.

Inductive result (A : Type) :=
| Ok (a : A)
| Err (e : exn).
Arguments Ok {A} a.
Arguments Err {A} e.

Definition rbind {A B} (m : result A) (k : A -> result B) : result B :=
  match m with Ok a => k a | Err e => Err e end.

Global Instance result_ret : MRet result := fun A a => Ok a.
Global Instance result_bind : MBind result := fun A B k m => rbind m k.

(** [d[k]] on a dict. *)
Definition getitem {V} (m : gmap string V) (k : string) : result V :=
  match m !! k with Some v => Ok v | None => Err KeyError end.

(** [{k: v for k in keys}]. *)
Definition dict_of {V} (keys : list string) (v : V) : gmap string V :=
  list_to_map (map (fun k => (k, v)) keys).

(** [self.name] for an integer attribute, given the attributes the
    instance (and its classes) define. *)
Definition getattr_Z (attrs : list (string * Z)) (name : string) : result Z :=
  match list_find (fun p => p.1 = name) attrs with
  | Some (_, (_, v)) => Ok v
  | None => Err (AttributeError name)
  end.

(** [del xs[0]]. *)
Definition del0 {A} (xs : list A) : result (list A) :=
  match xs with [] => Err IndexError | _ :: r => Ok r end.

(** [xs.pop(0)]. *)
Definition pop0 {A} (xs : list A) : result (A * list A) :=
  match xs with [] => Err IndexError | x :: r => Ok (x, r) end.

(** [a < b] and [a <= b] on times. *)
Definition qlt (a b : Q) : bool := negb (Qle_bool b a).
Definition qle (a b : Q) : bool := Qle_bool a b.

(** Python's [max(a, b)] and [min(a, b)]: the first argument unless the
    second is strictly larger (resp. smaller). *)
Definition py_max (a b : Q) : Q := if qlt a b then b else a.
Definition py_min (a b : Q) : Q := if qlt b a then b else a.

(** [int(q)]: truncation toward zero. *)
Definition py_int (q : Q) : Z :=
  if Qle_bool 0 q then Qfloor q else (- Qfloor (- q))%Z.

(** [a / b] on times. *)
Definition py_div (a b : Q) : result Q :=
  if Qeq_bool b 0 then Err ZeroDivisionError else Ok (a / b).

(** [xs[i]] with Python's negative indices. *)
Definition py_index {A} (xs : list A) (i : Z) : result A :=
  let j := (if (i <? 0)%Z then i + Z.of_nat (length xs) else i)%Z in
  if (j <? 0)%Z then Err IndexError
  else match xs !! Z.to_nat j with Some x => Ok x | None => Err IndexError end.

(** [xs[:i]] with Python's negative indices. *)
Definition py_slice_to {A} (xs : list A) (i : Z) : list A :=
  if (i <? 0)%Z then take (Z.to_nat (Z.of_nat (length xs) + i)) xs
  else take (Z.to_nat i) xs.

(** [xs[i:]] with Python's negative indices. *)
Definition py_slice_from {A} (xs : list A) (i : Z) : list A :=
  if (i <? 0)%Z then drop (Z.to_nat (Z.of_nat (length xs) + i)) xs
  else drop (Z.to_nat i) xs.

(* ===================================================================== *)
(** ** buffer.py: [BlockBuffer] *)
(* ===================================================================== *)

Module BlockBuffer.

Record t {E : Type} := mk { _block_size : Z; _buffer : list E }.
Arguments t : clear implicits.
Arguments mk {E}.

(** [__init__] followed by [reset]: no check of [block_size]. *)
Definition __init__ {E} (block_size : Z) : result (t E) :=
  Ok (mk block_size []).

(** [put]: [self._buffer.append(data)]. *)
Definition put {E} (data : E) (s : t E) : t E :=
  mk (_block_size s) (_buffer s ++ [data]).

(** [next]. *)
Definition next {E} (s : t E) : result (list E * t E) :=
  if (Z.of_nat (length (_buffer s)) <? _block_size s)%Z then Err StopIteration
  else Ok (py_slice_to (_buffer s) (_block_size s),
           mk (_block_size s) (py_slice_from (_buffer s) (_block_size s))).

(** The [num_blocks] property: [int(len(self._buffer) / self._block_size)]. *)
Definition num_blocks {E} (s : t E) : result Z :=
  if (_block_size s =? 0)%Z then Err ZeroDivisionError
  else Ok (Z.of_nat (length (_buffer s)) / _block_size s)%Z.

(** [get_all]: [return self._buffer]; the state is not touched. *)
Definition get_all {E} (s : t E) : list E * t E := (_buffer s, s).

End BlockBuffer.

(* ===================================================================== *)
(** ** grouper.py: [Block] *)
(* ===================================================================== *)

Module Block.

(** The attributes of a [Block] instance as they are being set up. *)
Record t {D : Type} := mk {
  _block_size : Z;
  _output_buffer : list (list D * Q * Q);
  _data : list D;
  _start_time : option Q;
  _end_time : option Q }.
Arguments t : clear implicits.

(** [__init__(self, block_size)]: the first statement is
    [self._block_size = self._block_size], which reads the attribute
    [_block_size] of a fresh instance. Neither the instance nor the class
    [Block] (nor [Grouper]) defines it, so the read raises. *)
Definition __init__ {D} (block_size : Z) : result (t D) :=
  bs ← getattr_Z [] "_block_size";
  Ok (mk D bs [] [] None None).

(** [put], as written (reached only on an instance built some other way). *)
Definition put {D} (datum : D) (start_time end_time : Q) (s : t D) : t D :=
  let data := _data s ++ [datum] in
  let a := match _start_time s with None => start_time | Some x => x end in
  if (Z.of_nat (length data) =? _block_size s)%Z then
    mk D (_block_size s) (_output_buffer s ++ [(data, a, end_time)]) [] None None
  else mk D (_block_size s) (_output_buffer s) data (Some a) (Some end_time).

End Block.

(* ===================================================================== *)
(** ** grouper.py: [Counter] *)
(* ===================================================================== *)

Module Counter.

Record t := mk { _counter : nat; _buffer : list (nat * Q * Q) }.

Definition __init__ : t := mk 0 [].

Definition next (s : t) : result ((nat * Q * Q) * t) :=
  match _buffer s with
  | [] => Err StopIteration
  | x :: r => Ok (x, mk (_counter s) r)
  end.

Definition put {D} (is_valid : D -> bool) (datum : D) (start_time end_time : Q)
    (s : t) : t :=
  let buf := _buffer s ++ [(_counter s, start_time, end_time)] in
  if is_valid datum then mk (S (_counter s)) buf else mk 0 buf.

(** A sequence of [put] calls, in order. *)
Fixpoint puts {D} (is_valid : D -> bool) (xs : list (D * Q * Q)) (s : t) : t :=
  match xs with
  | [] => s
  | (d, a, b) :: r => puts is_valid r (put is_valid d a b s)
  end.

End Counter.

(* ===================================================================== *)
(** ** grouper.py: [History] *)
(* ===================================================================== *)

Module History.

Record t {D : Type} := mk { _length : Z; _data : list D; _times : list (Q * Q) }.
Arguments t : clear implicits.
Arguments mk {D}.

Definition __init__ {D} (length : Z) : result (t D) := Ok (mk length [] []).

Definition next {D} (s : t D) : result ((list D * Q * Q) * t D) :=
  if (Z.of_nat (length (_data s)) <=? _length s)%Z then Err StopIteration
  else
    ab ← py_index (_times s) (_length s);
    let out := py_slice_to (_data s) (_length s) in
    data ← del0 (_data s);
    times ← del0 (_times s);
    Ok ((out, ab.1, ab.2), mk (_length s) data times).

Definition put {D} (datum : D) (start_time end_time : Q) (s : t D) : t D :=
  mk (_length s) (_data s ++ [datum]) (_times s ++ [(start_time, end_time)]).

(** Calls [next] until it raises; returns the histories obtained and the
    final state, or the first exception other than [StopIteration]. *)
Fixpoint drain {D} (fuel : nat) (s : t D) : result (list (list D * Q * Q) * t D) :=
  match fuel with
  | O => Ok ([], s)
  | S n =>
      match next s with
      | Err StopIteration => Ok ([], s)
      | Err e => Err e
      | Ok (o, s') => r ← drain n s'; Ok (o :: r.1, r.2)
      end
  end.

End History.

(* ===================================================================== *)
(** ** grouper.py: [Neighborhood] *)
(* ===================================================================== *)

Module Neighborhood.

(** A buffer entry, the dict [{'datum', 'start_time', 'end_time', 'handled'}]. *)
Record entry {D : Type} := mke { datum : D; e_start : Q; e_end : Q; handled : bool }.
Arguments entry : clear implicits.
Arguments mke {D}.

(** [x[key]] for the datum-valued key of an entry. *)
Definition entry_get {D} (x : entry D) (key : string) : result D :=
  if String.eqb key "datum" then Ok (datum x) else Err KeyError.

Record t {D : Type} := mk {
  _is_valid : list D -> bool;
  _length : Z;
  _buffer : list (entry D);
  _output_buffer : list (bool * Q * Q) }.
Arguments t : clear implicits.
Arguments mk {D}.

Definition __init__ {D} (is_valid : list D -> bool) (length : Z) : result (t D) :=
  Ok (mk is_valid length [] []).

(** The integer attributes an instance carries. *)
Definition int_attrs {D} (s : t D) : list (string * Z) := [("_length", _length s)].

Fixpoint mapM {A B} (f : A -> result B) (xs : list A) : result (list B) :=
  match xs with
  | [] => Ok []
  | x :: r => y ← f x; ys ← mapM f r; Ok (y :: ys)
  end.

(** [put]. Python mutates [self._buffer] before the exception, which the
    [result] type does not keep. *)
Definition put {D} (d : D) (start_time end_time : Q) (s : t D) : result (t D) :=
  let buf := _buffer s ++ [mke d start_time end_time false] in
  len ← getattr_Z (int_attrs s) "length";
  if (Z.of_nat (length buf) =? len)%Z then
    nbhd ← mapM (fun x => entry_get x "data") buf;
    let '(buf', out) :=
      if _is_valid s nbhd then
        (map (fun x => mke (datum x) (e_start x) (e_end x) true) buf,
         _output_buffer s ++
           map (fun x => (true, e_start x, e_end x)) (filter (fun x => negb (handled x)) buf))
      else (buf, _output_buffer s) in
    '(first, rest) ← pop0 buf';
    let out' := if handled first then out else out ++ [(false, e_start first, e_end first)] in
    Ok (mk (_is_valid s) (_length s) rest out')
  else Ok (mk (_is_valid s) (_length s) buf (_output_buffer s)).

End Neighborhood.

(* ===================================================================== *)
(** ** grouper.py: [Window] (the fixed-duration grouper) *)
(* ===================================================================== *)

Module Window.

Record window {D : Type} := mkw { w_start : Q; w_end : Q; w_data : list D }.
Arguments window : clear implicits.
Arguments mkw {D}.

Record t {D : Type} := mk {
  _start_time : Q;
  _window_duration : Q;
  _windows : list (window D);
  _current : option (window D) }.
Arguments t : clear implicits.
Arguments mk {D}.

Definition __init__ {D} (start_time window_duration : Q) : result (t D) :=
  Ok (mk start_time window_duration [] None).

Definition next {D} (s : t D) : result ((list D * Q * Q) * t D) :=
  '(w, ws) ← (match _windows s with [] => Err StopIteration | w :: r => Ok (w, r) end);
  Ok ((w_data w, w_start w, w_end w),
      mk (_start_time s) (_window_duration s) ws (_current s)).

(** Name resolution inside [_initialize_current]: it reads the name
    [start_time], which is neither a parameter nor a local of that method,
    so Python looks it up in the module's globals. *)
Definition scope := string -> option Q.

(** grouper.py binds no module-level name [start_time]. *)
Definition module_scope : scope := fun _ => None.

Definition load_name (sc : scope) (x : string) : result Q :=
  match sc x with Some v => Ok v | None => Err (NameError x) end.

Definition _initialize_current {D} (sc : scope) (s : t D) : result (t D) :=
  start_time ← load_name sc "start_time";
  st ← (if qlt (_start_time s) start_time then
          let diff := start_time - _start_time s in
          q ← py_div diff (_window_duration s);
          Ok (_start_time s + _window_duration s * inject_Z (py_int q))
        else Ok (_start_time s));
  Ok (mk st (_window_duration s) (_windows s)
        (Some (mkw st (st + _window_duration s) []))).

Definition _send_current {D} (s : t D) : result (t D) :=
  match _current s with
  | None => Err TypeError
  | Some c =>
      Ok (mk (_start_time s) (_window_duration s) (_windows s ++ [c])
            (Some (mkw (w_end c) (w_end c + _window_duration s) [])))
  end.

Definition append_current {D} (d : D) (s : t D) : result (t D) :=
  match _current s with
  | None => Err TypeError
  | Some c =>
      Ok (mk (_start_time s) (_window_duration s) (_windows s)
            (Some (mkw (w_start c) (w_end c) (w_data c ++ [d]))))
  end.

Definition current_end {D} (s : t D) : result Q :=
  match _current s with None => Err TypeError | Some c => Ok (w_end c) end.

(** Enough iterations for a [while x > current['end_time']] loop when the
    duration is positive; with a non-positive duration the loop never
    stops once entered. *)
Definition loop_fuel (from x dur : Q) : nat :=
  if qlt 0 dur then S (Z.to_nat (Qceiling ((x - from) / dur))) else 1.

(** [while start_time > self._current['end_time']: self._send_current()] *)
Fixpoint ship_before {D} (fuel : nat) (start_time : Q) (s : t D) : result (t D) :=
  e ← current_end s;
  if qlt e start_time then
    match fuel with
    | O => Err Diverges
    | S n => s' ← _send_current s; ship_before n start_time s'
    end
  else Ok s.

(** [while end_time > self._current['end_time']:
       self._current['data'].append(datum); self._send_current()] *)
Fixpoint ship_spanned {D} (fuel : nat) (d : D) (end_time : Q) (s : t D) : result (t D) :=
  e ← current_end s;
  if qlt e end_time then
    match fuel with
    | O => Err Diverges
    | S n => s1 ← append_current d s; s2 ← _send_current s1; ship_spanned n d end_time s2
    end
  else Ok s.

(** [put], with the name resolution of [_initialize_current] as a
    parameter; the code is [put_in module_scope]. *)
Definition put_in {D} (sc : Q -> scope) (d : D) (start_time end_time : Q) (s : t D)
    : result (t D) :=
  if qlt end_time (_start_time s) then Ok s
  else
    s1 ← (match _current s with
          | None => _initialize_current (sc start_time) s
          | Some _ => Ok s
          end);
    e1 ← current_end s1;
    s2 ← ship_before (loop_fuel e1 start_time (_window_duration s1)) start_time s1;
    e2 ← current_end s2;
    s3 ← ship_spanned (loop_fuel e2 end_time (_window_duration s2)) d end_time s2;
    append_current d s3.

Definition put {D} : D -> Q -> Q -> t D -> result (t D) :=
  put_in (fun _ => module_scope).

(** The binding [_initialize_current] would see if [put]'s parameter
    [start_time] were passed to it. *)
Definition put_scope (start_time : Q) : scope :=
  fun x => if String.eqb x "start_time" then Some start_time else None.

End Window.

(* ===================================================================== *)
(** ** combiner.py: [Combiner] (the overlap synchronizer) *)
(* ===================================================================== *)

Module Combiner.

(** A window dict [{'data', 'start_time', 'end_time', 'statuses', 'overlaps'}];
    a [None] in [data] is Python's [None]. *)
Record window {D : Type} := mkw {
  data : gmap string (option D);
  w_start : Q;
  w_end : Q;
  statuses : gmap string bool;
  overlaps : gmap string Q }.
Arguments window : clear implicits.
Arguments mkw {D}.

Record t {D : Type} := mk {
  _next_start_time : Q;
  _window_duration : Q;
  _topics : list string;
  _initialized : gmap string bool;
  _windows : list (window D) }.
Arguments t : clear implicits.
Arguments mk {D}.

Definition __init__ {D} (start_time window_duration : Q) (topics : list string)
    : result (t D) :=
  Ok (mk start_time window_duration topics (dict_of topics false) []).

(** The window [_add_window] appends. *)
Definition blank {D} (topics : list string) (a b : Q) : window D :=
  mkw (dict_of topics None) a b (dict_of topics false) (dict_of topics 0).

Definition _add_window {D} (s : t D) : t D :=
  mk (_next_start_time s + _window_duration s) (_window_duration s) (_topics s)
     (_initialized s)
     (_windows s ++ [blank (_topics s) (_next_start_time s)
                       (_next_start_time s + _window_duration s)]).

(** [all(window['statuses'].values())] *)
Definition _is_window_ready {D} (w : window D) : bool :=
  forallb snd (map_to_list (statuses w)).

Definition with_windows {D} (s : t D) (ws : list (window D)) : t D :=
  mk (_next_start_time s) (_window_duration s) (_topics s) (_initialized s) ws.

Definition next {D} (s : t D) : result ((gmap string (option D) * Q * Q) * t D) :=
  w0 ← py_index (_windows s) 0;
  if _is_window_ready w0 then
    '(w, ws) ← pop0 (_windows s);
    Ok ((data w, w_start w, w_end w), with_windows s ws)
  else Err StopIteration.

Definition _overlap (start end_ w_start w_end : Q) : result Q :=
  if qlt w_end start || qlt end_ w_start then Ok 0
  else
    let start := py_max start w_start in
    let end_ := py_min end_ w_end in
    let window_duration := w_end - w_start in
    py_div (end_ - start) window_duration.

(** [while self._windows and start_time > self._windows[0]['end_time']:
       del self._windows[0]] *)
Fixpoint drop_ended {D} (start_time : Q) (ws : list (window D)) : list (window D) :=
  match ws with
  | [] => []
  | w :: r => if qlt (w_end w) start_time then drop_ended start_time r else ws
  end.

(** Lines 96-106 of [put]: the first datum on a topic. *)
Definition _first_put {D} (topic : string) (start_time : Q) (s : t D) : result (t D) :=
  let init := <[topic := true]> (_initialized s) in
  let ws := drop_ended start_time (_windows s) in
  ns ← (if qlt (_next_start_time s) start_time then
          let diff := start_time - _next_start_time s in
          q ← py_div diff (_window_duration s);
          Ok (_next_start_time s + _window_duration s * inject_Z (py_int q))
        else Ok (_next_start_time s));
  Ok (mk ns (_window_duration s) (_topics s) init ws).

(** Iterations enough for the window-adding loop of [put] when the
    duration is positive; with a non-positive duration the loop never
    stops once it has added a window starting at or before [end_time]. *)
Definition fill_fuel {D} (end_time : Q) (s : t D) : nat :=
  if qlt 0 (_window_duration s)
  then S (S (Z.to_nat (Qfloor ((end_time - _next_start_time s) / _window_duration s))))
  else 2.

(** [while self._windows[-1]['start_time'] <= end_time: self._add_window()] *)
Fixpoint fill {D} (fuel : nat) (end_time : Q) (s : t D) : result (t D) :=
  wl ← py_index (_windows s) (-1);
  if qle (w_start wl) end_time then
    match fuel with
    | O => Err Diverges
    | S n => fill n end_time (_add_window s)
    end
  else Ok s.

(** [window['statuses'][topic] = True] *)
Definition mark {D} (topic : string) (w : window D) : window D :=
  mkw (data w) (w_start w) (w_end w) (<[topic := true]> (statuses w)) (overlaps w).

(** [window['data'][topic] = datum; window['overlaps'][topic] = overlap] *)
Definition upd {D} (topic : string) (d : D) (o : Q) (w : window D) : window D :=
  mkw (<[topic := Some d]> (data w)) (w_start w) (w_end w) (statuses w)
      (<[topic := o]> (overlaps w)).

(** The [for window in self._windows] loop, with its [break]. *)
Fixpoint scan {D} (topic : string) (d : D) (start_time end_time : Q)
    (ws : list (window D)) : result (list (window D)) :=
  match ws with
  | [] => Ok []
  | w :: r =>
      if qle (w_end w) start_time then
        r' ← scan topic d start_time end_time r; Ok (mark topic w :: r')
      else if qlt end_time (w_start w) then Ok ws
      else
        o ← _overlap start_time end_time (w_start w) (w_end w);
        ov ← getitem (overlaps w) topic;
        let w' := if qlt ov o then upd topic d o w else w in
        r' ← scan topic d start_time end_time r; Ok (w' :: r')
  end.

Definition put {D} (topic : string) (datum : D) (start_time end_time : Q) (s : t D)
    : result (t D) :=
  init ← getitem (_initialized s) topic;
  s1 ← (if (init : bool) then Ok s else _first_put topic start_time s);
  let s2 := match _windows s1 with [] => _add_window s1 | _ => s1 end in
  w0 ← py_index (_windows s2) 0;
  if qlt end_time (w_start w0) then Ok s2
  else
    s3 ← fill (fill_fuel end_time s2) end_time s2;
    ws ← scan topic datum start_time end_time (_windows s3);
    Ok (with_windows s3 ws).

(** The window whose start time is [w], if any. *)
Fixpoint find_start {D} (w : Q) (ws : list (window D)) : option (window D) :=
  match ws with
  | [] => None
  | x :: r => if Qeq_bool (w_start x) w then Some x else find_start w r
  end.

Definition window_at {D} (s : t D) (w : Q) : option (window D) :=
  find_start w (_windows s).

(** A sequence of calls on one combiner. A [next] that raises
    (StopIteration while the first window waits, IndexError when there is
    no window) is caught by the caller and leaves the combiner as it was;
    an exception of [put] ends the sequence. *)
Inductive op {D : Type} :=
| OPut (topic : string) (datum : D) (start_time end_time : Q)
| ONext.
Arguments op : clear implicits.

Fixpoint run {D} (ops : list (op D)) (s : t D) : result (t D) :=
  match ops with
  | [] => Ok s
  | OPut topic d st et :: r => s' ← put topic d st et s; run r s'
  | ONext :: r =>
      match next s with
      | Ok (_, s') => run r s'
      | Err _ => run r s
      end
  end.

(** A call that concerns no datum of [topic]: a [next], or a [put] on
    another topic of a datum with [start_time <= end_time]. *)
Definition other_op {D} (topic : string) (o : op D) : Prop :=
  match o with
  | OPut topic' _ st et => topic' <> topic /\ st <= et
  | ONext => True
  end.

End Combiner.

(* ===================================================================== *)
(** ** aligner.py: [Aligner] *)
(* ===================================================================== *)

Module Aligner.

Record window {D : Type} := mkw {
  data : gmap string (option D);
  w_start : Q;
  w_end : Q;
  statuses : gmap string bool }.
Arguments window : clear implicits.
Arguments mkw {D}.

Record t {D : Type} := mk { _topics : list string; _windows : list (window D) }.
Arguments t : clear implicits.
Arguments mk {D}.

Definition __init__ {D} (topics : list string) : result (t D) := Ok (mk topics []).

Definition _is_window_ready {D} (w : window D) : bool :=
  forallb snd (map_to_list (statuses w)).

(** [if self._windows and self._is_window_ready(self._windows[0])] *)
Definition next {D} (s : t D) : result ((gmap string (option D) * Q * Q) * t D) :=
  match _windows s with
  | w :: ws =>
      if _is_window_ready w then Ok ((data w, w_start w, w_end w), mk (_topics s) ws)
      else Err StopIteration
  | [] => Err StopIteration
  end.

(** [_add_window(start_time, end_time)] *)
Definition _add_window {D} (s : t D) (start_time end_time : Q) : t D :=
  mk (_topics s)
     (_windows s ++ [mkw (dict_of (_topics s) None) start_time end_time
                         (dict_of (_topics s) false)]).

(** [window['statuses'][topic] = True; window['data'][topic] = datum] *)
Definition fill {D} (topic : string) (datum : D) (w : window D) : window D :=
  mkw (<[topic := Some datum]> (data w)) (w_start w) (w_end w)
      (<[topic := true]> (statuses w)).

(** The [for i in xrange(len(self._windows))] loop of [put]: fills the
    first window whose status for [topic] is false ([Some] of the new
    windows), or finds none ([None]); reading a missing status raises. *)
Fixpoint put_loop {D} (topic : string) (datum : D) (ws : list (window D))
    : result (option (list (window D))) :=
  match ws with
  | [] => Ok None
  | w :: r =>
      b ← getitem (statuses w) topic;
      if (b : bool) then
        r' ← put_loop topic datum r; Ok (option_map (cons w) r')
      else Ok (Some (fill topic datum w :: r))
  end.

(** [put]: after the loop, [_add_window] and the assignments to the last
    window, which add the key [topic] if it is missing. *)
Definition put {D} (topic : string) (datum : D) (start_time end_time : Q) (s : t D)
    : result (t D) :=
  res ← put_loop topic datum (_windows s);
  match res with
  | Some ws => Ok (mk (_topics s) ws)
  | None =>
      let s1 := _add_window s start_time end_time in
      match last (_windows s1) with
      | Some wl => Ok (mk (_topics s1) (removelast (_windows s1) ++ [fill topic datum wl]))
      | None => Err IndexError
      end
  end.

(** A sequence of [put] calls, in order; the first exception ends it. *)
Fixpoint puts {D} (ps : list (string * D * Q * Q)) (s : t D) : result (t D) :=
  match ps with
  | [] => Ok s
  | (topic, d, a, b) :: r => s' ← put topic d a b s; puts r s'
  end.

End Aligner.

(* ===================================================================== *)
(** ** Definitions used to state the properties *)
(* ===================================================================== *)

Module BlockBufferRun.
Import BlockBuffer.

(** A call of [put] or of [next] on the buffer. *)
Inductive op {E : Type} := Put (x : E) | Next.
Arguments op : clear implicits.

(** Runs the calls in order; returns the blocks [next] handed out and the
    final state. A [next] that signals [StopIteration] changes nothing. *)
Fixpoint run {E} (ops : list (op E)) (s : t E) : list (list E) * t E :=
  match ops with
  | [] => ([], s)
  | Put x :: r => run r (put x s)
  | Next :: r =>
      match next s with
      | Ok (blk, s') => let res := run r s' in (blk :: res.1, res.2)
      | Err _ => run r s
      end
  end.

(** The elements put, in order. *)
Fixpoint put_elems {E} (ops : list (op E)) : list E :=
  match ops with
  | [] => []
  | Put x :: r => x :: put_elems r
  | Next :: r => put_elems r
  end.

End BlockBufferRun.

Section CounterDefs.
Context {D : Type} (is_valid : D -> bool).

Fixpoint take_while (xs : list D) : list D :=
  match xs with
  | [] => []
  | x :: r => if is_valid x then x :: take_while r else []
  end.

(** The length of the maximal run of valid data at the end of [ds]. *)
Definition run_before (ds : list D) : nat := length (take_while (rev ds)).

Definition datum_of (x : D * Q * Q) : D := x.1.1.

(** The queue the claim describes: one entry per datum, carrying the run
    preceding it and its own times. *)
Definition expected_queue (xs : list (D * Q * Q)) : list (nat * Q * Q) :=
  imap (fun i x => (run_before (map datum_of (take i xs)), x.1.2, x.2)) xs.

End CounterDefs.

Module HistoryRun.
Import History.

(** Calls [next] until it signals [StopIteration]; each successful call
    removes one item, so [length _data + 1] calls suffice. *)
Definition drain_all {D} (s : t D) : result (list (list D * Q * Q) * t D) :=
  drain (S (length (_data s))) s.

(** Feeds the data one by one, draining after every [put]; also returns
    the buffer size observed right after each [put]. *)
Fixpoint feed_drained {D} (xs : list (D * Q * Q)) (s : t D) : result (list nat * t D) :=
  match xs with
  | [] => Ok ([], s)
  | (d, a, b) :: r =>
      let s1 := put d a b s in
      r1 ← drain_all s1;
      r2 ← feed_drained r r1.2;
      Ok (length (_data s1) :: r2.1, r2.2)
  end.

(** Feeds the data one by one without calling [next]. *)
Fixpoint feed {D} (xs : list (D * Q * Q)) (s : t D) : t D :=
  match xs with
  | [] => s
  | (d, a, b) :: r => feed r (put d a b s)
  end.

End HistoryRun.

Section CombinerDefs.
Context {D : Type}.
Import Combiner.

Abbreviation sorted_starts := (StronglySorted (fun a b : window D => w_start a < w_start b)).

(** [_overlap] without its division-by-zero case. *)
Definition overlap_val (start end_ w_start w_end : Q) : Q :=
  if qlt w_end start || qlt end_ w_start then 0
  else (py_min end_ w_end - py_max start w_start) / (w_end - w_start).

(** What the loop of [put] does to one window it reaches. *)
Definition step (topic : string) (d : D) (st et : Q) (w : window D) : window D :=
  if qle (w_end w) st then mark topic w
  else if qlt et (w_start w) then w
  else match overlaps w !! topic with
       | Some ov =>
           let o := overlap_val st et (w_start w) (w_end w) in
           if qlt ov o then upd topic d o w else w
       | None => w
       end.

(** The state invariant [put] maintains when the duration is positive:
    windows sorted by start, each [window_duration] long and ending no
    later than the next-window-start pointer, non-negative overlaps with
    a slot for every topic, and only topics marked initialized. *)
Record wf (s : t D) : Prop := {
  wf_dur : 0 < _window_duration s;
  wf_sorted : sorted_starts (_windows s);
  wf_len : forall w, w ∈ _windows s -> w_end w == w_start w + _window_duration s;
  wf_end : forall w, w ∈ _windows s -> w_end w <= _next_start_time s;
  wf_ov : forall w, w ∈ _windows s -> map_Forall (fun _ o => 0 <= o) (overlaps w);
  wf_keys : forall w k, w ∈ _windows s -> k ∈ _topics s -> is_Some (overlaps w !! k);
  wf_init : forall k, is_Some (_initialized s !! k) -> k ∈ _topics s }.

End CombinerDefs.

Section AlignerDefs.
Context {D : Type}.

(** A call [put(topic, datum, start_time, end_time)], as a tuple. *)
Definition topic_of (p : string * D * Q * Q) : string := p.1.1.1.
Definition datum_of_put (p : string * D * Q * Q) : D := p.1.1.2.

(** The data put on [topic], in order, and how many there are. *)
Definition topic_data (topic : string) (ps : list (string * D * Q * Q)) : list D :=
  map datum_of_put (filter (fun p => topic_of p = topic) ps).

Definition topic_count (topic : string) (ps : list (string * D * Q * Q)) : nat :=
  length (topic_data topic ps).

Definition max_count (topics : list string) (ps : list (string * D * Q * Q)) : nat :=
  foldr Nat.max 0%nat (map (fun topic => topic_count topic ps) topics).

(** The shape of the queue of an [Aligner] after the puts [ps]: window [i]
    holds, for each topic, the [i]-th datum of that topic (and is marked for
    it) if there is one; the windows are as many as the most data of one
    topic; window [i] carries the times of the earliest put that was the
    [i]-th datum of its topic. *)
Record align_inv (topics : list string) (ps : list (string * D * Q * Q))
    (ws : list (Aligner.window D)) : Prop := {
  ai_keys : forall W k, W ∈ ws ->
    (is_Some (Aligner.data W !! k) <-> k ∈ topics)
    /\ (is_Some (Aligner.statuses W !! k) <-> k ∈ topics);
  ai_slots : forall i W topic, ws !! i = Some W -> topic ∈ topics ->
    Aligner.data W !! topic = Some (topic_data topic ps !! i)
    /\ Aligner.statuses W !! topic = Some (bool_decide (i < topic_count topic ps)%nat);
  ai_le : forall topic, topic ∈ topics -> (topic_count topic ps <= length ws)%nat;
  ai_max : ws = [] \/ exists topic, topic ∈ topics /\ topic_count topic ps = length ws;
  ai_times : forall i W, ws !! i = Some W ->
    exists j p, ps !! j = Some p /\ topic_count (topic_of p) (take j ps) = i
      /\ Aligner.w_start W = p.1.2 /\ Aligner.w_end W = p.2
      /\ forall j' p', (j' < j)%nat -> ps !! j' = Some p' ->
           topic_count (topic_of p') (take j' ps) <> i }.

End AlignerDefs.

Section CombinerGridDefs.
Context {D : Type}.
Import Combiner.

(** [q] is [start_time] offset by a whole multiple of [window_duration]. *)
Definition on_grid (start_time window_duration q : Q) : Prop :=
  exists k : Z, q == start_time + inject_Z k * window_duration.

(** The start of the window after the windows [ws], or the pointer. *)
Definition next_start_of (ws : list (window D)) (ns : Q) : Q :=
  match ws with [] => ns | w :: _ => w_start w end.

(** The windows tile time: each is [window_duration] long and ends where
    the next one starts, the last one where the pointer [ns] is. *)
Fixpoint tiled (window_duration ns : Q) (ws : list (window D)) : Prop :=
  match ws with
  | [] => True
  | w :: r => w_end w == w_start w + window_duration
              /\ w_end w == next_start_of r ns /\ tiled window_duration ns r
  end.

(** The shape of a combiner started at [t0] with duration [dur]: the
    pointer and every window start are on the grid of [t0], and the windows
    tile time up to the pointer. *)
Definition grid_inv (t0 dur : Q) (s : t D) : Prop :=
  _window_duration s = dur /\ on_grid t0 dur (_next_start_time s)
  /\ tiled dur (_next_start_time s) (_windows s)
  /\ forall w, w ∈ _windows s -> on_grid t0 dur (w_start w).

(** A call whose datum, if any, has [start_time <= end_time]. *)
Definition well_timed (o : op D) : Prop :=
  match o with OPut _ _ st et => st <= et | ONext => True end.

End CombinerGridDefs.

Module CounterRun.
Import Counter.

(** A call of [put] or of [next] on a [Counter]. *)
Inductive op {D : Type} := CPut (datum : D) (start_time end_time : Q) | CNext.
Arguments op : clear implicits.

(** Runs the calls in order; returns the entries [next] handed out and the
    final state. A [next] that raises [StopIteration] changes nothing. *)
Fixpoint run {D} (is_valid : D -> bool) (ops : list (op D)) (s : t)
    : list (nat * Q * Q) * t :=
  match ops with
  | [] => ([], s)
  | CPut d a b :: r => run is_valid r (put is_valid d a b s)
  | CNext :: r =>
      match next s with
      | Ok (x, s') => let res := run is_valid r s' in (x :: res.1, res.2)
      | Err _ => run is_valid r s
      end
  end.

(** The data put, with their times, in order. *)
Fixpoint put_items {D} (ops : list (op D)) : list (D * Q * Q) :=
  match ops with
  | [] => []
  | CPut d a b :: r => (d, a, b) :: put_items r
  | CNext :: r => put_items r
  end.

End CounterRun.

Module WindowRun.

(** A sequence of [put] calls on a [Window], stopping at the first
    exception. *)
Fixpoint puts {D} (ps : list (D * Q * Q)) (s : Window.t D) : result (Window.t D) :=
  match ps with
  | [] => Ok s
  | (d, a, b) :: r => s' ← Window.put d a b s; puts r s'
  end.

End WindowRun.

(* ===================================================================== *)
(** ** Pulling from an empty queue *)
(* ===================================================================== *)

(** The sibling synchronizer [Aligner] guards the empty queue and signals
    not-ready. *)
Lemma Aligner_next_empty {D} (s : Aligner.t D) :
  Aligner._windows s = [] -> Aligner.next s = Err StopIteration.
Proof. intros H. unfold Aligner.next. by rewrite H. Qed.

(** C3 (code_bug): [Combiner.next] on a Combiner whose window queue is empty
    reads [self._windows[0]] unguarded and raises [IndexError], where the
    claim (and the sibling [Aligner.next]) signal [StopIteration]. *)
Theorem Combiner_next_empty_IndexError {D} (s : Combiner.t D) :
  Combiner._windows s = [] -> Combiner.next s = Err IndexError.
Proof. intros H. unfold Combiner.next, py_index. by rewrite H. Qed.

Lemma Combiner_next_empty_IndexError_witness :
  Combiner.__init__ (D:=nat) 0 10 ["x"] = Ok (Combiner.mk 0 10 ["x"] (dict_of ["x"] false) [])
  /\ Combiner.next (Combiner.mk (D:=nat) 0 10 ["x"] (dict_of ["x"] false) []) = Err IndexError.
Proof.
  split; [reflexivity |].
  apply (Combiner_next_empty_IndexError (Combiner.mk 0 10 ["x"] (dict_of ["x"] false) [])).
  reflexivity.
Defined.

(* ===================================================================== *)
(** ** The fixed-duration grouper on the scenario of the spec *)
(* ===================================================================== *)

(** C4 (code_bug): [Window(0, 10)] then [put(A, 0, 5)] raises a [NameError]
    for [start_time] inside [_initialize_current], so the call sequence
    [put(A, 0, 5); put(B, 12, 15)] never reaches the second [put]. *)
Theorem Window_scenario_NameError :
  (s ← Window.__init__ 0 10;
   s1 ← Window.put "A" 0 5 s;
   Window.put "B" 12 15 s1) = Err (NameError "start_time").
Proof. reflexivity. Qed.

(** Had [put] passed its [start_time] on, the same calls would close
    [[0,10)] holding only A and leave [[10,20)] open holding B. *)
Lemma Window_scenario_with_start_time :
  (s ← Window.__init__ 0 10;
   s1 ← Window.put_in Window.put_scope "A" 0 5 s;
   Window.put_in Window.put_scope "B" 12 15 s1)
  = Ok (Window.mk 0 10 [Window.mkw 0 (0 + 10) ["A"]]
                  (Some (Window.mkw (0 + 10) (0 + 10 + 10) ["B"]))).
Proof. vm_compute. reflexivity. Qed.

(* ===================================================================== *)
(** ** Neighborhood and Block: attribute slips *)
(* ===================================================================== *)

(** C5 (code_bug): every [Neighborhood.put] reads [self.length], an
    attribute the instance does not have (it stores [_length]), and raises
    [AttributeError]; no datum is ever emitted. *)
Theorem Neighborhood_put_AttributeError {D} (s : Neighborhood.t D) (d : D) (a b : Q) :
  Neighborhood.put d a b s = Err (AttributeError "length").
Proof. reflexivity. Qed.

(** C6 (code_bug): [Block(block_size)] raises [AttributeError] in
    [__init__] for every block size, so no block is ever emitted. *)
Theorem Block_init_AttributeError {D} (n : Z) :
  Block.__init__ (D:=D) n = Err (AttributeError "_block_size").
Proof. reflexivity. Qed.

(* ===================================================================== *)
(** ** Construction does not validate the configuration *)
(* ===================================================================== *)

(** C8 (counterexample): [BlockBuffer(0)] and [Window(0, 0)] are built
    without error, and the zero-size buffer then hands out empty blocks
    forever while [num_blocks] divides by zero. *)
Lemma config_not_validated_counterexample :
  BlockBuffer.__init__ (E:=nat) 0 = Ok (BlockBuffer.mk 0 [])
  /\ BlockBuffer.next (BlockBuffer.put 7%nat (BlockBuffer.mk 0 []))
     = Ok ([], BlockBuffer.mk 0 [7%nat])
  /\ BlockBuffer.num_blocks (BlockBuffer.mk 0 [7%nat]) = Err ZeroDivisionError
  /\ Window.__init__ (D:=nat) 0 0 = Ok (Window.mk 0 0 [] None).
Proof. repeat split; reflexivity. Qed.

(** C8 (amended): no constructor checks its configuration: [BlockBuffer],
    [Window], [Combiner], [History] and [Neighborhood] are built for every
    block size, duration and length, non-positive ones included; [Block]'s
    constructor fails for every block size, with an [AttributeError]. *)
Theorem constructors_accept_any_config {D E : Type} :
  (forall n : Z, BlockBuffer.__init__ (E:=E) n = Ok (BlockBuffer.mk n []))
  /\ (forall st dur : Q, Window.__init__ (D:=D) st dur = Ok (Window.mk st dur [] None))
  /\ (forall (st dur : Q) (topics : list string),
        Combiner.__init__ (D:=D) st dur topics
        = Ok (Combiner.mk st dur topics (dict_of topics false) []))
  /\ (forall L : Z, History.__init__ (D:=D) L = Ok (History.mk L [] []))
  /\ (forall (v : list D -> bool) (L : Z),
        Neighborhood.__init__ v L = Ok (Neighborhood.mk v L [] []))
  /\ (forall n : Z, Block.__init__ (D:=D) n = Err (AttributeError "_block_size")).
Proof. repeat split. Qed.

(* ===================================================================== *)
(** ** BlockBuffer: draining *)
(* ===================================================================== *)

Section BlockBufferRunFacts.
Import BlockBuffer BlockBufferRun.

Lemma slice_split {E} (xs : list E) (i : Z) :
  py_slice_to xs i ++ py_slice_from xs i = xs.
Proof. unfold py_slice_to, py_slice_from. destruct (i <? 0)%Z; apply take_drop. Qed.

Lemma run_blocks_buffer {E} (ops : list (op E)) (s : t E) :
  concat (run ops s).1 ++ _buffer (run ops s).2 = _buffer s ++ put_elems ops.
Proof.
  revert s; induction ops as [|[x|] r IH]; intros s; simpl.
  - by rewrite app_nil_r.
  - rewrite IH. simpl. by rewrite <- app_assoc.
  - unfold next. destruct (Z.of_nat (length (_buffer s)) <? _block_size s)%Z eqn:E1.
    + apply IH.
    + simpl. rewrite <- app_assoc, IH. simpl.
      rewrite app_assoc, slice_split. reflexivity.
Qed.

End BlockBufferRunFacts.

(** C9 (counterexample): with block size 2, after putting 1, 2, 3,
    [get_all] returns [[1; 2; 3]] but the buffer is not cleared: one
    complete block is still counted and [next] still hands out [[1; 2]]. *)
Lemma get_all_keeps_buffer_counterexample :
  let b := BlockBuffer.put 3%nat (BlockBuffer.put 2%nat (BlockBuffer.put 1%nat
             (BlockBuffer.mk 2 []))) in
  (BlockBuffer.get_all b).1 = [1; 2; 3]%nat
  /\ BlockBuffer.num_blocks (BlockBuffer.get_all b).2 = Ok 1%Z
  /\ BlockBuffer.next (BlockBuffer.get_all b).2 = Ok ([1; 2]%nat, BlockBuffer.mk 2 [3%nat]).
Proof. repeat split. Qed.

(** C9 (amended): for every sequence of puts and takes on a fresh buffer,
    [get_all] returns exactly the elements put and not yet handed out in a
    block, in order (the partial trailing block included), and leaves the
    buffer unchanged. *)
Theorem get_all_returns_pending {E} (bs : Z) (ops : list (BlockBufferRun.op E)) :
  let res := BlockBufferRun.run ops (BlockBuffer.mk bs []) in
  concat res.1 ++ (BlockBuffer.get_all res.2).1 = BlockBufferRun.put_elems ops
  /\ (BlockBuffer.get_all res.2).2 = res.2.
Proof.
  simpl. split; [| reflexivity].
  apply (run_blocks_buffer ops (BlockBuffer.mk bs [])).
Qed.

(* ===================================================================== *)
(** ** Counter *)
(* ===================================================================== *)

Section CounterSpec.
Context {D : Type} (is_valid : D -> bool).

Lemma Counter_puts_app xs ys s :
  Counter.puts is_valid (xs ++ ys) s = Counter.puts is_valid ys (Counter.puts is_valid xs s).
Proof.
  revert s; induction xs as [|[[d a] b] r IH]; intros s; simpl; [done | apply IH].
Qed.

Lemma run_before_snoc ds d :
  run_before is_valid (ds ++ [d]) = if is_valid d then S (run_before is_valid ds) else 0%nat.
Proof. unfold run_before. rewrite rev_app_distr. simpl. by destruct (is_valid d). Qed.

Lemma Counter_puts_state xs :
  Counter.puts is_valid xs Counter.__init__
  = Counter.mk (run_before is_valid (map datum_of xs)) (expected_queue is_valid xs).
Proof.
  induction xs as [|x xs IH] using rev_ind; [reflexivity |].
  rewrite Counter_puts_app, IH. destruct x as [[d a] b]. simpl.
  unfold Counter.put, expected_queue. simpl.
  rewrite imap_app. simpl. rewrite Nat.add_0_r, take_app_length.
  assert (Hq : imap (fun i x => (run_before is_valid (map datum_of (take i (xs ++ [(d, a, b)]))), x.1.2, x.2)) xs
               = imap (fun i x => (run_before is_valid (map datum_of (take i xs)), x.1.2, x.2)) xs).
  { apply imap_ext. intros i x Hi. apply lookup_lt_Some in Hi.
    rewrite take_app_le; [reflexivity | lia]. }
  rewrite Hq, map_app. change (map datum_of [(d, a, b)]) with [d].
  rewrite run_before_snoc. by destruct (is_valid d).
Qed.

End CounterSpec.

(** C10: after any sequence of puts on a fresh [Counter], its output queue
    holds exactly one entry per datum, in order; entry n carries datum n's
    start and end times and the length of the maximal run of valid data
    put immediately before datum n (0 for the first datum). *)
Theorem Counter_queue_counts_preceding_run {D} (is_valid : D -> bool)
    (xs : list (D * Q * Q)) :
  Counter._buffer (Counter.puts is_valid xs Counter.__init__)
  = imap (fun i x => (run_before is_valid (map datum_of (take i xs)), x.1.2, x.2)) xs.
Proof. rewrite Counter_puts_state. reflexivity. Qed.

(* ===================================================================== *)
(** ** History *)
(* ===================================================================== *)

Section HistoryRunFacts.
Import History HistoryRun.

Lemma next_shrinks {D} (s : t D) :
  (0 <= _length s)%Z -> length (_times s) = length (_data s) ->
  (Z.to_nat (_length s) < length (_data s))%nat ->
  exists o s', next s = Ok (o, s') /\ _length s' = _length s
    /\ length (_data s') = pred (length (_data s))
    /\ length (_times s') = length (_data s').
Proof.
  intros HL Ht Hlt. unfold next.
  destruct (Z.of_nat (length (_data s)) <=? _length s)%Z eqn:E1; [apply Z.leb_le in E1; lia |].
  unfold py_index. destruct (_length s <? 0)%Z eqn:E2; [apply Z.ltb_lt in E2; lia |].
  destruct (_length s <? 0)%Z eqn:E3; [apply Z.ltb_lt in E3; lia |].
  destruct (_times s !! Z.to_nat (_length s)) as [ab|] eqn:E4;
    [| apply lookup_ge_None in E4; lia].
  destruct (_data s) as [|x xs] eqn:Ed; [simpl in Hlt; lia |].
  destruct (_times s) as [|y ys] eqn:Et; [simpl in Ht; lia |].
  simpl. eexists _, _. split; [reflexivity |]. simpl. simpl in Ht. lia.
Qed.

Lemma next_stops {D} (s : t D) :
  (length (_data s) <= Z.to_nat (_length s))%nat -> (0 <= _length s)%Z ->
  next s = Err StopIteration.
Proof.
  intros H HL. unfold next.
  destruct (Z.of_nat (length (_data s)) <=? _length s)%Z eqn:E1; [reflexivity |].
  apply Z.leb_gt in E1. lia.
Qed.

Lemma drain_bound {D} (fuel : nat) (s : t D) :
  (0 <= _length s)%Z -> length (_times s) = length (_data s) ->
  (length (_data s) < fuel + Z.to_nat (_length s))%nat ->
  exists outs s', drain fuel s = Ok (outs, s') /\ _length s' = _length s
    /\ (length (_data s') <= Z.to_nat (_length s))%nat
    /\ length (_times s') = length (_data s').
Proof.
  revert s; induction fuel as [|n IH]; intros s HL Ht Hlt; simpl.
  - exists [], s. repeat split; [lia | done].
  - destruct (decide (length (_data s) <= Z.to_nat (_length s)))%nat as [Hle|Hgt].
    + rewrite next_stops by done. exists [], s. repeat split; [lia | done].
    + destruct (next_shrinks s HL Ht) as (o & s' & Hn & HL' & Hd & Ht'); [lia |].
      rewrite Hn. destruct (IH s') as (outs & s'' & Hr & HL'' & Hd'' & Ht'');
        [lia | done | lia |].
      rewrite Hr. simpl. exists (o :: outs), s''. repeat split; [lia | lia | done].
Qed.

End HistoryRunFacts.

(** C7 (counterexample): with length 1, three [put] calls and no [next]
    leave three items in the buffer, more than [1 + 1]. *)
Lemma History_buffer_grows_counterexample :
  length (History._data (HistoryRun.feed [(1%nat, 0, 1); (2%nat, 1, 2); (3%nat, 2, 3)]
            (History.mk (D:=nat) 1 [] []))) = 3%nat.
Proof. reflexivity. Qed.

(** C7 (amended): [put] always appends and [next] removes one item only
    while more than [L] are held, so for [L >= 0] a consumer that calls
    [next] until [StopIteration] after every [put] keeps the buffer at most
    [L + 1] items right after each [put] and at most [L] after draining. *)
Theorem History_bounded_when_drained {D} (L : Z) (xs : list (D * Q * Q)) :
  (0 <= L)%Z ->
  exists sizes s', HistoryRun.feed_drained xs (History.mk L [] []) = Ok (sizes, s')
    /\ Forall (fun n => (n <= Z.to_nat L + 1)%nat) sizes
    /\ (length (History._data s') <= Z.to_nat L)%nat.
Proof.
  intros HL.
  assert (Gen : forall s : History.t D, History._length s = L ->
            length (History._times s) = length (History._data s) ->
            (length (History._data s) <= Z.to_nat L)%nat ->
            exists sizes s', HistoryRun.feed_drained xs s = Ok (sizes, s')
              /\ Forall (fun n => (n <= Z.to_nat L + 1)%nat) sizes
              /\ (length (History._data s') <= Z.to_nat L)%nat).
  { induction xs as [|[[d a] b] r IH]; intros s Hs Ht Hd; simpl.
    - exists [], s. repeat split; [constructor | done].
    - set (s1 := History.put d a b s).
      assert (Hs1 : History._length s1 = L) by done.
      assert (Hd1 : length (History._data s1) = S (length (History._data s)))
        by (simpl; rewrite length_app; simpl; lia).
      assert (Ht1 : length (History._times s1) = length (History._data s1))
        by (rewrite Hd1; simpl; rewrite length_app; simpl; lia).
      destruct (drain_bound (S (length (History._data s1))) s1)
        as (outs & s2 & Hr & HL2 & Hd2 & Ht2); [lia | done | lia |].
      unfold HistoryRun.drain_all. rewrite Hr. simpl.
      destruct (IH s2) as (sizes & s' & Hf & Hall & Hd'); [lia | done | lia |].
      rewrite Hf. simpl. exists (length (History._data s1) :: sizes), s'.
      repeat split; [constructor; [lia | done] | done]. }
  apply Gen; simpl; lia.
Qed.

Lemma History_bounded_when_drained_witness :
  (0 <= 2)%Z /\
  exists sizes s', HistoryRun.feed_drained [(1%nat, 0, 1); (2%nat, 1, 2); (3%nat, 2, 3)]
                     (History.mk 2 [] []) = Ok (sizes, s')
    /\ Forall (fun n => (n <= Z.to_nat 2 + 1)%nat) sizes
    /\ (length (History._data s') <= Z.to_nat 2)%nat.
Proof. split; [lia | apply (History_bounded_when_drained 2); lia]. Defined.

(* ===================================================================== *)
(** ** Combiner: comparisons, dicts and the per-window update *)
(* ===================================================================== *)

Lemma qlt_true a b : qlt a b = true <-> a < b.
Proof.
  unfold qlt. rewrite negb_true_iff. split.
  - intros H. apply Qnot_le_lt. intros H'. apply Qle_bool_iff in H'. congruence.
  - intros H. destruct (Qle_bool b a) eqn:E; [| done].
    apply Qle_bool_iff in E. exfalso. by apply (Qlt_not_le a b).
Qed.

Lemma qlt_false a b : qlt a b = false <-> b <= a.
Proof.
  unfold qlt. rewrite negb_false_iff. apply Qle_bool_iff.
Qed.

Lemma qle_true a b : qle a b = true <-> a <= b.
Proof. apply Qle_bool_iff. Qed.

Lemma qle_false a b : qle a b = false <-> b < a.
Proof.
  split.
  - intros H. apply Qnot_le_lt. intros H'. apply qle_true in H'. congruence.
  - intros H. destruct (qle a b) eqn:E; [| done].
    apply qle_true in E. exfalso. by apply (Qlt_not_le b a).
Qed.

(** Turns every [qlt]/[qle] test in the goal into a case split on the
    corresponding order fact. *)
Ltac qcase :=
  repeat match goal with
  | |- context [qlt ?a ?b] =>
      let E := fresh "E" in
      destruct (qlt a b) eqn:E; [apply qlt_true in E | apply qlt_false in E]
  | |- context [qle ?a ?b] =>
      let E := fresh "E" in
      destruct (qle a b) eqn:E; [apply qle_true in E | apply qle_false in E]
  end.

Lemma Qdiv_nonneg (x y : Q) : 0 <= x -> 0 < y -> 0 <= x / y.
Proof. intros Hx Hy. apply Qle_shift_div_l; [done | lra]. Qed.

Lemma Qdiv_zero (x y : Q) : x == 0 -> x / y == 0.
Proof. intros H. unfold Qdiv. rewrite H. apply Qmult_0_l. Qed.

Lemma dict_of_lookup {V} (keys : list string) (v : V) (k : string) :
  dict_of keys v !! k = if decide (k ∈ keys) then Some v else None.
Proof.
  unfold dict_of. induction keys as [|x r IH].
  - destruct (decide (k ∈ [])) as [H|H]; [set_solver | apply lookup_empty].
  - simpl. rewrite lookup_insert.
    destruct (decide (x = k)) as [H1|H1]; subst.
    + destruct (decide (k ∈ k :: r)) as [H2|H2]; [done | set_solver].
    + rewrite IH. destruct (decide (k ∈ r)) as [H2|H2];
        destruct (decide (k ∈ x :: r)) as [H3|H3]; set_solver.
Qed.

Section CombinerWindows.
Context {D : Type}.
Import Combiner.


Lemma overlap_ok st et a b :
  a < b -> _overlap st et a b = Ok (overlap_val st et a b).
Proof.
  intros Hab. unfold _overlap, overlap_val, py_div.
  destruct (qlt b st || qlt et a); [done |].
  destruct (Qeq_bool (b - a) 0) eqn:E; [| done].
  apply Qeq_bool_iff in E. lra.
Qed.

Lemma overlap_nonneg st et a b :
  st <= et -> a < b -> 0 <= overlap_val st et a b.
Proof.
  intros Hse Hab. unfold overlap_val.
  destruct (qlt b st) eqn:E1; [simpl; lra |].
  destruct (qlt et a) eqn:E2; [simpl; lra |]. simpl.
  apply qlt_false in E1, E2. apply Qdiv_nonneg; [| lra].
  unfold py_min, py_max. qcase; lra.
Qed.

Lemma overlap_before st et a b : et < a -> overlap_val st et a b = 0.
Proof.
  intros H. unfold overlap_val. apply qlt_true in H. rewrite H.
  by rewrite orb_true_r.
Qed.

Lemma overlap_after st et a b :
  b <= st -> st <= et -> a < b -> overlap_val st et a b == 0.
Proof.
  intros Hb Hse Hab. unfold overlap_val.
  destruct (qlt b st) eqn:E1; [simpl; lra |].
  destruct (qlt et a) eqn:E2; [simpl; lra |]. simpl.
  apply qlt_false in E1, E2. apply Qdiv_zero.
  unfold py_min, py_max. qcase; lra.
Qed.

Lemma step_start topic (d : D) st et (w : window D) : w_start (step topic d st et w) = w_start w.
Proof.
  unfold step. destruct (qle _ _); [done |]. destruct (qlt _ _); [done |].
  destruct (overlaps w !! topic); [| done]. by destruct (qlt _ _).
Qed.

Lemma step_end topic (d : D) st et (w : window D) : w_end (step topic d st et w) = w_end w.
Proof.
  unfold step. destruct (qle _ _); [done |]. destruct (qlt _ _); [done |].
  destruct (overlaps w !! topic); [| done]. by destruct (qlt _ _).
Qed.

Lemma step_id topic (d : D) st et (w : window D) :
  st <= et -> et < w_start w -> w_start w < w_end w -> step topic d st et w = w.
Proof.
  intros H1 H2 H3. unfold step. qcase; first [done | lra].
Qed.

Lemma map_step_id topic d st et (ws : list (window D)) :
  st <= et -> (forall w, w ∈ ws -> et < w_start w /\ w_start w < w_end w) ->
  map (step topic d st et) ws = ws.
Proof.
  intros Hse H. induction ws as [|w r IH]; [done |]. simpl.
  rewrite step_id, IH; [done | | done | |].
  - intros w' Hw'. apply H. set_solver.
  - apply H. set_solver.
  - apply H. set_solver.
Qed.

(** The loop of [put], with its [break], touches every window as [step]
    does when the windows are sorted by start time. *)
Lemma scan_map topic d st et (ws : list (window D)) :
  st <= et ->
  StronglySorted (fun a b => w_start a < w_start b) ws ->
  (forall w, w ∈ ws -> w_start w < w_end w /\ is_Some (overlaps w !! topic)) ->
  scan topic d st et ws = Ok (map (step topic d st et) ws).
Proof.
  intros Hse. induction ws as [|w r IH]; intros Hs Hw; [done |].
  inversion Hs as [|? ? Hs' Hall]; subst.
  assert (Hr : forall w', w' ∈ r -> w_start w < w_start w').
  { intros w' Hw'. rewrite Forall_forall in Hall. by apply (Hall w'). }
  destruct (Hw w) as [Hab [ov Hov]]; [set_solver |].
  simpl. unfold step at 1.
  destruct (qle (w_end w) st) eqn:E1.
  - rewrite IH; [done | done |]. intros w' Hw'. apply Hw. set_solver.
  - destruct (qlt et (w_start w)) eqn:E2.
    + apply qlt_true in E2. f_equal. f_equal.
      symmetry. apply map_step_id; [done |].
      intros w' Hw'. split; [specialize (Hr w' Hw'); lra |].
      apply Hw. set_solver.
    + rewrite overlap_ok by done. simpl. unfold getitem. rewrite Hov. simpl.
      rewrite IH; [done | done |]. intros w' Hw'. apply Hw. set_solver.
Qed.

End CombinerWindows.

(* ===================================================================== *)
(** ** Combiner: the shape invariant of its state *)
(* ===================================================================== *)

Section CombinerInvariant.
Context {D : Type}.
Import Combiner.

Abbreviation sorted_starts := (StronglySorted (fun a b : window D => w_start a < w_start b)).

Lemma wf_start_lt (s : t D) w : wf s -> w ∈ _windows s -> w_start w < w_end w.
Proof. intros Hs Hw. pose proof (wf_len s Hs w Hw). pose proof (wf_dur s Hs). lra. Qed.

Lemma wf_start_ns (s : t D) w : wf s -> w ∈ _windows s -> w_start w < _next_start_time s.
Proof.
  intros Hs Hw. pose proof (wf_start_lt s w Hs Hw). pose proof (wf_end s Hs w Hw). lra.
Qed.

Lemma blank_overlaps topics a b k :
  overlaps (blank (D:=D) topics a b) !! k = if decide (k ∈ topics) then Some 0 else None.
Proof. apply dict_of_lookup. Qed.

Lemma blank_data topics a b k :
  data (blank (D:=D) topics a b) !! k = if decide (k ∈ topics) then Some None else None.
Proof. apply dict_of_lookup. Qed.

Lemma sorted_snoc (ws : list (window D)) x :
  sorted_starts ws -> (forall y, y ∈ ws -> w_start y < w_start x) -> sorted_starts (ws ++ [x]).
Proof.
  induction ws as [|y r IH]; intros Hs Hlt; simpl.
  - repeat constructor.
  - inversion Hs as [|? ? Hr Hall]; subst. constructor.
    + apply IH; [done |]. intros y' Hy'. apply Hlt. set_solver.
    + apply Forall_app. split; [done |]. constructor; [| done]. apply Hlt. set_solver.
Qed.

Lemma sorted_drop (ws : list (window D)) k : sorted_starts ws -> sorted_starts (drop k ws).
Proof.
  revert ws; induction k as [|k IH]; intros ws Hs; [done |].
  destruct ws as [|w r]; [done |]. simpl. apply IH. by inversion Hs.
Qed.

Lemma elem_of_drop_l (ws : list (window D)) k w : w ∈ drop k ws -> w ∈ ws.
Proof.
  revert ws; induction k as [|k IH]; intros ws H; [done |].
  destruct ws as [|x r]; [done |]. simpl in H. apply IH in H. set_solver.
Qed.

Lemma wf_add_window (s : t D) : wf s -> wf (_add_window s).
Proof.
  intros Hs. destruct Hs as [Hd Hso Hl He Hov Hk Hi].
  split; simpl; try done.
  - apply sorted_snoc; [done |]. intros y Hy. simpl.
    pose proof (wf_start_ns s y ltac:(by split) Hy). done.
  - intros w Hw. apply elem_of_app in Hw as [Hw | Hw%list_elem_of_singleton].
    + by apply Hl.
    + subst. simpl. lra.
  - intros w Hw. apply elem_of_app in Hw as [Hw | Hw%list_elem_of_singleton].
    + specialize (He w Hw). lra.
    + subst. simpl. lra.
  - intros w Hw. apply elem_of_app in Hw as [Hw | Hw%list_elem_of_singleton]; [by apply Hov |].
    subst. intros k o Hko. rewrite blank_overlaps in Hko.
    destruct (decide _); [| done]. injection Hko as <-. lra.
  - intros w k Hw Hkt. apply elem_of_app in Hw as [Hw | Hw%list_elem_of_singleton]; [by apply Hk |].
    subst. rewrite blank_overlaps. by rewrite decide_True.
Qed.

Lemma drop_ended_drop st (ws : list (window D)) : exists k, drop_ended st ws = drop k ws.
Proof.
  induction ws as [|w r [k IH]]; simpl; [by exists 0%nat |].
  destruct (qlt (w_end w) st); [exists (S k); done | exists 0%nat; done].
Qed.

Lemma py_int_nonneg q : 0 <= q -> (0 <= py_int q)%Z.
Proof.
  intros Hq. unfold py_int. destruct (Qle_bool 0 q) eqn:E.
  - change 0%Z with (Qfloor 0). by apply Qfloor_resp_le.
  - apply Qle_bool_iff in Hq. congruence.
Qed.

(** The phase of [put] run on a topic's first datum keeps the invariant,
    only drops windows from the front, and never moves the pointer back. *)
Lemma first_put_wf topic st (s s1 : t D) :
  wf s -> topic ∈ _topics s -> _first_put topic st s = Ok s1 ->
  wf s1 /\ _next_start_time s <= _next_start_time s1
  /\ _topics s1 = _topics s /\ _window_duration s1 = _window_duration s
  /\ (exists k, _windows s1 = drop k (_windows s)).
Proof.
  intros Hs Ht H. unfold _first_put in H.
  destruct (drop_ended_drop st (_windows s)) as [k Hk].
  pose proof (wf_dur s Hs) as Hd.
  assert (Hns : exists ns, (if qlt (_next_start_time s) st
                then (q ← py_div (st - _next_start_time s) (_window_duration s);
                      Ok (_next_start_time s + _window_duration s * inject_Z (py_int q)))
                else Ok (_next_start_time s)) = Ok ns /\ _next_start_time s <= ns).
  { destruct (qlt (_next_start_time s) st) eqn:E.
    - apply qlt_true in E. unfold py_div.
      destruct (Qeq_bool (_window_duration s) 0) eqn:E0; [apply Qeq_bool_iff in E0; lra |].
      simpl. eexists; split; [reflexivity |].
      assert (Hq : 0 <= (st - _next_start_time s) / _window_duration s)
        by (apply Qdiv_nonneg; lra).
      pose proof (py_int_nonneg _ Hq) as Hz. rewrite Zle_Qle in Hz.
      assert (0 <= _window_duration s * inject_Z (py_int ((st - _next_start_time s) / _window_duration s)))
        by (apply Qmult_le_0_compat; [lra | done]).
      lra.
    - eexists; split; [reflexivity | lra]. }
  destruct Hns as [ns [Hns Hle]]. rewrite Hns in H. simpl in H. injection H as <-.
  simpl. split; [| split; [done | split; [done | split; [done | by exists k]]]].
  destruct Hs as [Hd' Hso Hl He Hov Hk' Hi]. rewrite Hk.
  split; simpl; try done.
  - by apply sorted_drop.
  - intros w Hw. apply Hl. by eapply elem_of_drop_l.
  - intros w Hw. apply elem_of_drop_l in Hw. specialize (He w Hw). lra.
  - intros w Hw. apply Hov. by eapply elem_of_drop_l.
  - intros w k' Hw. apply Hk'. by eapply elem_of_drop_l.
  - intros k' [b Hb]. rewrite lookup_insert in Hb.
    destruct (decide (topic = k')); [by subst | apply Hi; by eexists].
Qed.

End CombinerInvariant.

Section CombinerPut.
Context {D : Type}.
Import Combiner.

Abbreviation sorted_starts := (StronglySorted (fun a b : window D => w_start a < w_start b)).

Lemma py_index_last (ws : list (window D)) :
  ws <> [] -> exists w, py_index ws (-1) = Ok w /\ w ∈ ws.
Proof.
  intros Hne. unfold py_index. simpl.
  destruct (length ws) as [|n] eqn:El; [destruct ws; simpl in El; congruence |].
  destruct (-1 + Z.of_nat (S n) <? 0)%Z eqn:E; [apply Z.ltb_lt in E; lia |].
  replace (Z.to_nat (-1 + Z.of_nat (S n))) with n by lia.
  destruct (ws !! n) as [w|] eqn:Ew; [| apply lookup_ge_None in Ew; lia].
  exists w. split; [done |]. by eapply list_elem_of_lookup_2.
Qed.

Lemma py_index_elem (ws : list (window D)) i w : py_index ws i = Ok w -> w ∈ ws.
Proof.
  unfold py_index. destruct (_ <? 0)%Z; [done |].
  destruct (ws !! _) eqn:E; [| done]. intros [= <-]. by eapply list_elem_of_lookup_2.
Qed.

(** The window-adding loop of [put] appends blank windows starting at or
    after the pointer, keeps the invariant and leaves the pointer past
    [end_time]. *)
Lemma fill_spec n et (s s' : t D) :
  wf s -> _windows s <> [] -> fill n et s = Ok s' ->
  wf s' /\ _topics s' = _topics s /\ _window_duration s' = _window_duration s
  /\ _next_start_time s <= _next_start_time s' /\ et < _next_start_time s'
  /\ exists new, _windows s' = _windows s ++ new
       /\ forall w, w ∈ new -> _next_start_time s <= w_start w
            /\ w = blank (_topics s) (w_start w) (w_end w).
Proof.
  revert s; induction n as [|n IH]; intros s Hs Hne H; simpl in H;
    destruct (py_index_last _ Hne) as [wl [Hl Hwl]]; rewrite Hl in H; simpl in H.
  - destruct (qle (w_start wl) et) eqn:E; [done |]. injection H as <-.
    apply qle_false in E. pose proof (wf_start_ns s wl Hs Hwl).
    split_and!; try done; try lra. exists []. split; [by rewrite app_nil_r | set_solver].
  - destruct (qle (w_start wl) et) eqn:E.
    + pose proof (wf_dur s Hs).
      destruct (IH (_add_window s)) as (Hs' & Ht & Hd & Hn & Het & new & Hw & Hnew);
        [by apply wf_add_window | simpl; destruct (_windows s); simpl; congruence | done |].
      simpl in *. split_and!; try done; try lra.
      exists (blank (_topics s) (_next_start_time s) (_next_start_time s + _window_duration s) :: new).
      split; [by rewrite Hw, <- app_assoc |].
      intros w Hw'. apply elem_of_cons in Hw' as [-> | Hw']; [simpl; split; [lra | done] |].
      destruct (Hnew w Hw') as [H1 H2]. split; [lra | done].
    + injection H as <-. apply qle_false in E. pose proof (wf_start_ns s wl Hs Hwl).
      split_and!; try done; try lra. exists []. split; [by rewrite app_nil_r | set_solver].
Qed.

Lemma elem_of_map_inv {A B} (f : A -> B) (l : list A) y :
  y ∈ map f l -> exists x, y = f x /\ x ∈ l.
Proof.
  induction l as [|x r IH]; simpl; intros H; [set_solver |].
  apply elem_of_cons in H as [-> | H]; [exists x; set_solver |].
  destruct (IH H) as [x' [-> Hx']]. exists x'. set_solver.
Qed.

Lemma step_overlaps topic d st et (w : window D) :
  overlaps (step topic d st et w) = overlaps w
  \/ overlaps (step topic d st et w)
     = <[topic := overlap_val st et (w_start w) (w_end w)]> (overlaps w).
Proof.
  unfold step. destruct (qle _ _); [by left |]. destruct (qlt _ _); [by left |].
  destruct (overlaps w !! topic); [| by left]. destruct (qlt _ _); [by right | by left].
Qed.

Lemma sorted_map_step topic d st et (ws : list (window D)) :
  sorted_starts ws -> sorted_starts (map (step topic d st et) ws).
Proof.
  induction ws as [|w r IH]; intros Hs; simpl; [constructor |].
  inversion Hs as [|? ? Hr Hall]; subst. constructor; [by apply IH |].
  apply Forall_map. eapply Forall_impl; [exact Hall |]. intros x Hx. simpl.
  by rewrite !step_start.
Qed.

Lemma wf_scan topic (d : D) st et (s : t D) :
  wf s -> st <= et -> wf (with_windows s (map (step topic d st et) (_windows s))).
Proof.
  intros Hs Hse. split; simpl.
  - apply (wf_dur s Hs).
  - apply sorted_map_step, (wf_sorted s Hs).
  - intros w' Hw'. apply elem_of_map_inv in Hw' as [w [-> Hw]].
    rewrite step_start, step_end. by apply (wf_len s Hs).
  - intros w' Hw'. apply elem_of_map_inv in Hw' as [w [-> Hw]].
    rewrite step_end. by apply (wf_end s Hs).
  - intros w' Hw'. apply elem_of_map_inv in Hw' as [w [-> Hw]].
    destruct (step_overlaps topic d st et w) as [-> | ->]; [by apply (wf_ov s Hs) |].
    apply map_Forall_insert_2; [| by apply (wf_ov s Hs)].
    apply overlap_nonneg; [done |]. by apply (wf_start_lt s).
  - intros w' k Hw' Hk. apply elem_of_map_inv in Hw' as [w [-> Hw]].
    destruct (step_overlaps topic d st et w) as [-> | ->]; [by apply (wf_keys s Hs) |].
    rewrite lookup_insert. destruct (decide _); [done | by apply (wf_keys s Hs)].
  - apply (wf_init s Hs).
Qed.

End CombinerPut.

Section CombinerPutSpec.
Context {D : Type}.
Import Combiner.

Abbreviation sorted_starts := (StronglySorted (fun a b : window D => w_start a < w_start b)).

Lemma find_start_map topic d st et w (l : list (window D)) :
  find_start w (map (step topic d st et) l) = option_map (step topic d st et) (find_start w l).
Proof.
  induction l as [|x r IH]; [done |]. simpl. rewrite step_start.
  by destruct (Qeq_bool (w_start x) w).
Qed.

Lemma find_start_app w (l1 l2 : list (window D)) :
  find_start w (l1 ++ l2)
  = match find_start w l1 with Some x => Some x | None => find_start w l2 end.
Proof.
  induction l1 as [|x r IH]; [done |]. simpl. by destruct (Qeq_bool (w_start x) w).
Qed.

Lemma find_start_Some w (l : list (window D)) x :
  find_start w l = Some x -> x ∈ l /\ w_start x == w.
Proof.
  induction l as [|y r IH]; simpl; [done |].
  destruct (Qeq_bool (w_start y) w) eqn:E.
  - intros [= <-]. apply Qeq_bool_iff in E. set_solver.
  - intros H. destruct (IH H). set_solver.
Qed.

Lemma find_start_drop_None w (l : list (window D)) k :
  find_start w l = None -> find_start w (drop k l) = None.
Proof.
  revert l; induction k as [|k IH]; intros l H; [done |].
  destruct l as [|y r]; [done |]. simpl in *. apply IH.
  by destruct (Qeq_bool (w_start y) w).
Qed.

Lemma find_start_sorted_None w (l : list (window D)) y :
  sorted_starts (y :: l) -> w_start y == w -> find_start w l = None.
Proof.
  intros Hs Hy. inversion Hs as [|? ? Hr Hall]; subst. clear Hs Hr.
  induction l as [|z r IH]; [done |]. simpl.
  inversion Hall as [|? ? Hz Hall']; subst.
  destruct (Qeq_bool (w_start z) w) eqn:E; [apply Qeq_bool_iff in E; lra |].
  by apply IH.
Qed.

Lemma find_start_drop_Some w (l : list (window D)) k x :
  sorted_starts l -> find_start w l = Some x ->
  find_start w (drop k l) = Some x \/ find_start w (drop k l) = None.
Proof.
  revert l; induction k as [|k IH]; intros l Hs H; [by left |].
  destruct l as [|y r]; [done |]. simpl in *.
  destruct (Qeq_bool (w_start y) w) eqn:E.
  - right. apply find_start_drop_None. apply Qeq_bool_iff in E.
    by apply (find_start_sorted_None w r y).
  - apply IH; [by inversion Hs | done].
Qed.

Lemma find_start_late w (l : list (window D)) ns :
  (forall x, x ∈ l -> ns <= w_start x) -> w < ns -> find_start w l = None.
Proof.
  intros Hl Hw. induction l as [|y r IH]; [done |]. simpl.
  destruct (Qeq_bool (w_start y) w) eqn:E.
  - apply Qeq_bool_iff in E. specialize (Hl y ltac:(set_solver)). lra.
  - apply IH. intros x Hx. apply Hl. set_solver.
Qed.

(** One [put] call, from a well-formed state: the invariant holds after
    it, the pointer is past [end_time], and the new window list is the
    old one minus a prefix, plus blank windows starting at or after the
    old pointer, with every window updated by [step]. *)
Lemma put_spec topic (d : D) st et (s s' : t D) :
  wf s -> st <= et -> put topic d st et s = Ok s' ->
  wf s' /\ topic ∈ _topics s /\ _topics s' = _topics s
  /\ _next_start_time s <= _next_start_time s' /\ et < _next_start_time s'
  /\ exists k new, _windows s' = map (step topic d st et) (drop k (_windows s) ++ new)
       /\ forall w, w ∈ new -> _next_start_time s <= w_start w
            /\ w = blank (_topics s) (w_start w) (w_end w).
Proof.
  intros Hs Hse H. unfold put in H.
  destruct (getitem (_initialized s) topic) as [init|] eqn:Hg; [| done]. simpl in H.
  assert (Ht : topic ∈ _topics s).
  { apply (wf_init s Hs). unfold getitem in Hg. destruct (_initialized s !! topic); [by eexists | done]. }
  assert (H1 : exists s1, (if init then Ok s else _first_put topic st s) = Ok s1
             /\ wf s1 /\ _next_start_time s <= _next_start_time s1
             /\ _topics s1 = _topics s /\ exists k, _windows s1 = drop k (_windows s)).
  { destruct init.
    - exists s. split_and!; try done; [lra | by exists 0%nat].
    - destruct (_first_put topic st s) as [s1|] eqn:Hf; [| done].
      destruct (first_put_wf topic st s s1 Hs Ht Hf) as (? & ? & ? & ? & ?).
      by exists s1. }
  destruct H1 as (s1 & Hs1e & Hs1 & Hns1 & Ht1 & k & Hk). rewrite Hs1e in H. simpl in H.
  set (s2 := match _windows s1 with [] => _add_window s1 | _ :: _ => s1 end) in H.
  assert (H2 : wf s2 /\ _next_start_time s1 <= _next_start_time s2 /\ _topics s2 = _topics s1
             /\ exists new0, _windows s2 = _windows s1 ++ new0
               /\ forall w, w ∈ new0 -> _next_start_time s1 <= w_start w
                    /\ w = blank (_topics s1) (w_start w) (w_end w)).
  { subst s2. pose proof (wf_dur s1 Hs1). destruct (_windows s1) as [|w0 r] eqn:E.
    - split_and!; [by apply wf_add_window | simpl; lra | done |].
      exists [blank (_topics s1) (_next_start_time s1) (_next_start_time s1 + _window_duration s1)].
      simpl. rewrite E. split; [done |]. intros w Hw.
      apply list_elem_of_singleton in Hw. subst. simpl. split; [lra | done].
    - split_and!; [done | lra | done |]. exists []. rewrite app_nil_r. split; [done | set_solver]. }
  destruct H2 as (Hs2 & Hns2 & Ht2 & new0 & Hw2 & Hnew0).
  assert (Hne : _windows s2 <> []).
  { subst s2. destruct (_windows s1) eqn:E; [simpl; destruct (_windows s1); simpl; congruence | by rewrite E]. }
  destruct (_windows s2) as [|w0 rest] eqn:Ew2; [done |].
  unfold py_index in H. simpl in H.
  destruct (qlt et (w_start w0)) eqn:Eet.
  - injection H as <-. apply qlt_true in Eet.
    assert (Hw0 : w0 ∈ _windows s2) by (rewrite Ew2; set_solver).
    pose proof (wf_start_ns s2 w0 Hs2 Hw0).
    split_and!; try done; try lra; [congruence |].
    exists k, new0. split.
    + rewrite <- Hk, <- Hw2, Ew2. symmetry. apply map_step_id; [done |].
      pose proof (wf_sorted s2 Hs2) as Hso. rewrite Ew2 in Hso.
      inversion Hso as [|? ? _ Hall]; subst.
      intros x Hx. split; [| apply (wf_start_lt s2 x Hs2); rewrite Ew2; set_solver].
      apply elem_of_cons in Hx as [-> | Hx]; [done |].
      rewrite Forall_forall in Hall. specialize (Hall x Hx). simpl in Hall. lra.
    + intros w Hw. destruct (Hnew0 w Hw). split; [lra | congruence].
  - apply qlt_false in Eet.
    destruct (fill (fill_fuel et s2) et s2) as [s3|] eqn:Hf; [| done]. simpl in H.
    destruct (fill_spec _ et s2 s3 Hs2 ltac:(by rewrite Ew2) Hf) as (Hs3 & Ht3 & Hd3 & Hns3 & Het3 & new1 & Hw3 & Hnew1).
    rewrite scan_map in H; [| done | apply (wf_sorted s3 Hs3) |].
    2:{ intros w Hw. split; [by apply (wf_start_lt s3) |]. apply (wf_keys s3 Hs3 w); [done |].
        by rewrite Ht3, Ht2, Ht1. }
    simpl in H. injection H as <-.
    split_and!.
    + by apply wf_scan.
    + done.
    + simpl. by rewrite Ht3, Ht2, Ht1.
    + simpl. lra.
    + done.
    + exists k, (new0 ++ new1). split.
      * simpl. rewrite Hw3, Ew2, Hw2, Hk. by rewrite <- app_assoc.
      * intros w Hw. apply elem_of_app in Hw as [Hw | Hw].
        -- destruct (Hnew0 w Hw) as [Ha Hb]. rewrite Ht1 in Hb. split; [lra | done].
        -- destruct (Hnew1 w Hw) as [Ha Hb]. rewrite Ht2, Ht1 in Hb. split; [lra | done].
Qed.

End CombinerPutSpec.

Section CombinerSlots.
Context {D : Type}.
Import Combiner.

Abbreviation sorted_starts := (StronglySorted (fun a b : window D => w_start a < w_start b)).

(** How [step] changes the slot of its own topic: the datum is replaced
    exactly when the new overlap is strictly greater than the stored one,
    and the stored overlap becomes the larger of the two. *)
Lemma step_slot topic (d : D) st et (w : window D) ov :
  st <= et -> w_start w < w_end w -> overlaps w !! topic = Some ov -> 0 <= ov ->
  overlaps (step topic d st et w) !! topic
    = Some (py_max ov (overlap_val st et (w_start w) (w_end w)))
  /\ data (step topic d st et w) !! topic
    = if qlt ov (overlap_val st et (w_start w) (w_end w)) then Some (Some d)
      else data w !! topic.
Proof.
  intros Hse Hab Hov Hnn. unfold step, py_max.
  destruct (qle (w_end w) st) eqn:E1.
  - apply qle_true in E1.
    pose proof (overlap_after st et (w_start w) (w_end w) E1 Hse Hab) as Ho.
    destruct (qlt ov _) eqn:E; [apply qlt_true in E; lra |]. simpl. by rewrite Hov.
  - destruct (qlt et (w_start w)) eqn:E2.
    + apply qlt_true in E2. rewrite overlap_before by done.
      destruct (qlt ov 0) eqn:E; [apply qlt_true in E; lra |]. by rewrite Hov.
    + rewrite Hov. destruct (qlt ov _) eqn:E; simpl.
      * by rewrite !lookup_insert_eq.
      * by rewrite Hov.
Qed.

(** [step] on another topic leaves this topic's slot and the bounds alone. *)
Lemma step_other_slot topic topic' (d : D) st et (w : window D) :
  topic' <> topic ->
  data (step topic' d st et w) !! topic = data w !! topic
  /\ overlaps (step topic' d st et w) !! topic = overlaps w !! topic.
Proof.
  intros Hne. unfold step. destruct (qle _ _); [done |]. destruct (qlt _ _); [done |].
  destruct (overlaps w !! topic'); [| done]. destruct (qlt _ _); [| done].
  simpl. by rewrite !lookup_insert_ne.
Qed.

(** The window found at start time [w] after a [put]: the same window
    updated by [step], or a window created by this [put] (then there was
    none at [w] before, and it starts at or after the old pointer). *)
Lemma put_window_at topic (d : D) st et (s s' : t D) w W' :
  wf s -> st <= et -> put topic d st et s = Ok s' -> window_at s' w = Some W' ->
  (exists W0, window_at s w = Some W0 /\ W' = step topic d st et W0)
  \/ (window_at s w = None /\ _next_start_time s <= w_start W'
      /\ W' = step topic d st et (blank (_topics s) (w_start W') (w_end W'))).
Proof.
  intros Hs Hse Hp Hw.
  destruct (put_spec topic d st et s s' Hs Hse Hp) as (_ & _ & _ & _ & _ & k & new & Hws & Hnew).
  unfold window_at in *. rewrite Hws, find_start_map, find_start_app in Hw.
  destruct (find_start w (_windows s)) as [W0|] eqn:E.
  - left. exists W0. split; [done |].
    destruct (find_start_drop_Some w (_windows s) k W0 (wf_sorted s Hs) E) as [E' | E'];
      rewrite E' in Hw.
    + simpl in Hw. congruence.
    + destruct (find_start_Some w (_windows s) W0 E) as [Hin Heq].
      pose proof (wf_start_ns s W0 Hs Hin).
      rewrite (find_start_late w new (_next_start_time s)) in Hw; [done | | lra].
      intros x Hx. apply Hnew, Hx.
  - right. rewrite find_start_drop_None in Hw by done.
    destruct (find_start w new) as [X|] eqn:EX; [| done]. simpl in Hw. injection Hw as <-.
    destruct (find_start_Some w new X EX) as [Hin _].
    destruct (Hnew X Hin) as [Hle Hb]. rewrite step_start, step_end.
    split_and!; [done | done |]. by rewrite <- Hb.
Qed.

Lemma next_spec (s s' : t D) out :
  wf s -> next s = Ok (out, s') ->
  wf s' /\ _next_start_time s' = _next_start_time s /\ _topics s' = _topics s
  /\ _windows s' = drop 1 (_windows s).
Proof.
  intros Hs H. unfold next, py_index in H. simpl in H.
  destruct (_windows s) as [|w0 r] eqn:E; [done |]. simpl in H.
  destruct (_is_window_ready w0); [| done]. simpl in H. injection H as _ <-.
  destruct Hs as [Hd Hso Hl He Hov Hk Hi]. rewrite E in Hso, Hl, He, Hov, Hk.
  split_and!; try done. split; simpl; try done.
  - by inversion Hso.
  - intros w Hw. apply Hl. set_solver.
  - intros w Hw. apply He. set_solver.
  - intros w Hw. apply Hov. set_solver.
  - intros w k Hw. apply Hk. set_solver.
Qed.

End CombinerSlots.

Section CombinerTrace.
Context {D : Type}.
Import Combiner.

Abbreviation sorted_starts := (StronglySorted (fun a b : window D => w_start a < w_start b)).

Lemma find_start_drop_inv w (l : list (window D)) k x :
  sorted_starts l -> find_start w (drop k l) = Some x -> find_start w l = Some x.
Proof.
  revert l; induction k as [|k IH]; intros l Hs H; [done |].
  destruct l as [|y r]; [done |]. simpl in H.
  assert (Hr : find_start w r = Some x) by (apply IH; [by inversion Hs | done]).
  simpl. destruct (Qeq_bool (w_start y) w) eqn:E; [| done].
  apply Qeq_bool_iff in E. by rewrite (find_start_sorted_None w r y Hs E) in Hr.
Qed.

(** A window present after a sequence of calls on other topics, and
    [next]s, has the same bounds and the same slot for [topic] as the
    window with its start time before them; or there was none, and it was
    created by them with an empty slot, at or after the old pointer. *)
Lemma run_other topic (ops : list (op D)) (s s' : t D) :
  wf s -> topic ∈ _topics s -> Forall (other_op topic) ops -> run ops s = Ok s' ->
  wf s' /\ _topics s' = _topics s /\ _next_start_time s <= _next_start_time s'
  /\ forall w W', window_at s' w = Some W' ->
     (exists W, window_at s w = Some W /\ w_start W' = w_start W /\ w_end W' = w_end W
        /\ data W' !! topic = data W !! topic /\ overlaps W' !! topic = overlaps W !! topic)
     \/ (window_at s w = None /\ _next_start_time s <= w_start W'
        /\ data W' !! topic = Some None /\ overlaps W' !! topic = Some 0).
Proof.
  revert s. induction ops as [|o r IH]; intros s Hs Ht Hall Hr.
  { simpl in Hr. injection Hr as <-. split_and!; [done | done | lra |].
    intros w W' HW. left. by exists W'. }
  inversion Hall as [|? ? Ho Hr']; subst. destruct o as [topic' d st et|]; simpl in Hr.
  - destruct Ho as [Hne Hse].
    destruct (put topic' d st et s) as [s1|] eqn:Hp; [| done]. simpl in Hr.
    destruct (put_spec topic' d st et s s1 Hs Hse Hp) as (Hs1 & _ & Ht1 & Hns1 & _).
    destruct (IH s1 Hs1 ltac:(by rewrite Ht1) Hr' Hr) as (Hs' & Ht' & Hns' & Hw).
    split_and!; [done | congruence | lra |].
    intros w W' HW. destruct (Hw w W' HW) as [(W1 & HW1 & Ha & Hb & Hdat & Hov) | (HN & Hle & Hdat & Hov)].
    + destruct (put_window_at topic' d st et s s1 w W1 Hs Hse Hp HW1)
        as [(W0 & HW0 & ->) | (HN0 & Hle0 & Heq)].
      * left. exists W0. rewrite step_start, step_end in *.
        destruct (step_other_slot topic topic' d st et W0 Hne) as [E1 E2].
        split_and!; congruence.
      * right. split_and!; [done | congruence | |].
        -- rewrite Hdat, Heq. destruct (step_other_slot topic topic' d st et
             (blank (_topics s) (w_start W1) (w_end W1)) Hne) as [E1 _].
           rewrite E1, blank_data. by rewrite decide_True.
        -- rewrite Hov, Heq. destruct (step_other_slot topic topic' d st et
             (blank (_topics s) (w_start W1) (w_end W1)) Hne) as [_ E2].
           rewrite E2, blank_overlaps. by rewrite decide_True.
    + right. split_and!; [| lra | done | done].
      destruct (window_at s w) as [W0|] eqn:HW0; [| done]. exfalso.
      destruct (find_start_Some w _ W0 HW0) as [Hin0 Heq0].
      destruct (find_start_Some w _ W' HW) as [_ Heq'].
      pose proof (wf_start_ns s W0 Hs Hin0). lra.
  - destruct (next s) as [[out s1]|e] eqn:Hn.
    + destruct (next_spec s s1 out Hs Hn) as (Hs1 & Hns1 & Ht1 & Hws1).
      destruct (IH s1 Hs1 ltac:(by rewrite Ht1) Hr' Hr) as (Hs' & Ht' & Hns' & Hw).
      rewrite Hns1 in Hns', Hw.
      split_and!; [done | congruence | done |].
      intros w W' HW. destruct (Hw w W' HW) as [(W1 & HW1 & Hrest) | (HN & Hle & Hdat & Hov)].
      * left. exists W1. split; [| done]. unfold window_at in *. rewrite Hws1 in HW1.
        exact (find_start_drop_inv w _ 1 W1 (wf_sorted s Hs) HW1).
      * right. split_and!; [| lra | done | done].
        destruct (window_at s w) as [W0|] eqn:HW0; [| done]. exfalso.
        destruct (find_start_Some w _ W0 HW0) as [Hin0 Heq0].
        destruct (find_start_Some w _ W' HW) as [_ Heq'].
        pose proof (wf_start_ns s W0 Hs Hin0). lra.
    + exact (IH s Hs Ht Hr' Hr).
Qed.

End CombinerTrace.

Section CombinerBest.
Context {D : Type}.
Import Combiner.

(** The slot of [topic] in a window after a [put] on [topic], from the
    slot it had before (an absent window counts as an empty slot). *)
Lemma put_slot topic (d : D) st et (s s1 : t D) w W1 (dat : option D) ov :
  wf s -> st <= et -> 0 <= ov -> put topic d st et s = Ok s1 -> window_at s1 w = Some W1 ->
  (forall W0, window_at s w = Some W0 -> w_start W0 = w_start W1 -> w_end W0 = w_end W1 ->
     data W0 !! topic = Some dat /\ overlaps W0 !! topic = Some ov) ->
  (window_at s w = None -> _next_start_time s <= w_start W1 -> dat = None /\ ov = 0) ->
  data W1 !! topic
    = Some (if qlt ov (overlap_val st et (w_start W1) (w_end W1)) then Some d else dat)
  /\ overlaps W1 !! topic = Some (py_max ov (overlap_val st et (w_start W1) (w_end W1))).
Proof.
  intros Hs Hse Hov Hp HW1 Hin Habs.
  destruct (put_spec topic d st et s s1 Hs Hse Hp) as (Hs1 & Ht & _).
  destruct (find_start_Some w _ W1 HW1) as [Hmem _].
  pose proof (wf_start_lt s1 W1 Hs1 Hmem) as Hab.
  destruct (put_window_at topic d st et s s1 w W1 Hs Hse Hp HW1)
    as [(W0 & HW0 & Heq) | (HN & Hle & Heq)].
  - subst W1. rewrite step_start, step_end in *.
    destruct (Hin W0 HW0 eq_refl eq_refl) as [Hd Ho].
    destruct (step_slot topic d st et W0 ov Hse Hab Ho Hov) as [E1 E2].
    rewrite E2, Hd. split; [| done]. by destruct (qlt _ _).
  - destruct (Habs HN Hle) as [-> ->].
    set (B := blank (D:=D) (_topics s) (w_start W1) (w_end W1)) in Heq.
    pose proof (f_equal (fun x => data x !! topic) Heq) as Hd.
    pose proof (f_equal (fun x => overlaps x !! topic) Heq) as Ho. simpl in Hd, Ho.
    assert (Hb : overlaps B !! topic = Some 0)
      by (unfold B; rewrite blank_overlaps; by rewrite decide_True).
    destruct (step_slot topic d st et B 0 Hse Hab Hb ltac:(lra)) as [E1 E2].
    change (w_start B) with (w_start W1) in *. change (w_end B) with (w_end W1) in *.
    rewrite Hd, Ho, E1, E2. unfold B.
    rewrite blank_data, decide_True by done.
    split; [| done]. by destruct (qlt _ _).
Qed.

(** The slot of [topic] after calls that concern no datum of [topic]. *)
Lemma run_slot topic (ops : list (op D)) (s s' : t D) w W' (dat : option D) ov :
  wf s -> topic ∈ _topics s -> Forall (other_op topic) ops -> run ops s = Ok s' ->
  window_at s' w = Some W' ->
  (forall W, window_at s w = Some W -> w_start W = w_start W' -> w_end W = w_end W' ->
     data W !! topic = Some dat /\ overlaps W !! topic = Some ov) ->
  (window_at s w = None -> _next_start_time s <= w_start W' -> dat = None /\ ov = 0) ->
  data W' !! topic = Some dat /\ overlaps W' !! topic = Some ov.
Proof.
  intros Hs Ht Hall Hr HW Hin Habs.
  destruct (run_other topic ops s s' Hs Ht Hall Hr) as (_ & _ & _ & Hw).
  destruct (Hw w W' HW) as [(W & HW0 & Ha & Hb & Hd & Ho) | (HN & Hle & Hd & Ho)].
  - rewrite Hd, Ho. by apply Hin.
  - destruct (Habs HN Hle) as [-> ->]. done.
Qed.

Lemma py_max_0_nonneg o : 0 <= py_max 0 o.
Proof. unfold py_max. qcase; lra. Qed.

Lemma py_max_0_0 : py_max 0 0 = 0.
Proof. reflexivity. Qed.

End CombinerBest.

Section CombinerInit.
Context {D : Type}.
Import Combiner.

(** A fresh combiner with a positive duration satisfies the invariant. *)
Lemma init_wf start_time window_duration topics (s : t D) :
  0 < window_duration -> __init__ start_time window_duration topics = Ok s -> wf s.
Proof.
  intros Hd H. injection H as <-. split; simpl.
  - done.
  - constructor.
  - intros w Hw. by apply elem_of_nil in Hw.
  - intros w Hw. by apply elem_of_nil in Hw.
  - intros w Hw. by apply elem_of_nil in Hw.
  - intros w k Hw. by apply elem_of_nil in Hw.
  - intros k [b Hb]. rewrite dict_of_lookup in Hb.
    destruct (decide (k ∈ topics)); [done | discriminate].
Qed.

End CombinerInit.

(** C1. Two data of one topic, put one after the other (any calls on other
    topics and any [next]s may come between and after them), into a window
    whose slot for that topic was empty: once both are in, the slot holds
    the datum whose overlap fraction with the window is strictly greater;
    on equal overlaps it holds the earlier one if that overlap is positive,
    and stays empty ([None]) if both overlaps are 0. *)
Theorem Combiner_put_keeps_greater_overlap {D} topic (d1 d2 : D) st1 et1 st2 et2
    (opsb opsc : list (Combiner.op D)) (s s1 sb s2 s3 : Combiner.t D) w W o1 o2 :
  wf s -> st1 <= et1 -> st2 <= et2 ->
  Forall (Combiner.other_op topic) opsb -> Forall (Combiner.other_op topic) opsc ->
  Combiner.put topic d1 st1 et1 s = Ok s1 -> Combiner.run opsb s1 = Ok sb ->
  Combiner.put topic d2 st2 et2 sb = Ok s2 -> Combiner.run opsc s2 = Ok s3 ->
  (forall W0, Combiner.window_at s w = Some W0 ->
     Combiner.data W0 !! topic = Some None /\ Combiner.overlaps W0 !! topic = Some 0) ->
  Combiner.window_at s3 w = Some W ->
  Combiner._overlap st1 et1 (Combiner.w_start W) (Combiner.w_end W) = Ok o1 ->
  Combiner._overlap st2 et2 (Combiner.w_start W) (Combiner.w_end W) = Ok o2 ->
  Combiner.data W !! topic
    = Some (if qlt o1 o2 then Some d2 else if qlt 0 o1 then Some d1 else None).
Proof.
  intros Hs Hse1 Hse2 Hb Hc Hp1 Hr1 Hp2 Hr2 H0 HW Ho1 Ho2.
  destruct (put_spec topic d1 st1 et1 s s1 Hs Hse1 Hp1)
    as (Hs1 & Ht & Ht1 & Hns1 & Het1 & _).
  destruct (run_other topic opsb s1 sb Hs1 ltac:(by rewrite Ht1) Hb Hr1)
    as (Hsb & Htb & Hnsb & _).
  destruct (put_spec topic d2 st2 et2 sb s2 Hsb Hse2 Hp2)
    as (Hs2 & _ & Ht2 & Hns2 & Het2 & _).
  destruct (find_start_Some w _ W HW) as [Hmem _].
  destruct (run_other topic opsc s2 s3 Hs2 ltac:(by rewrite Ht2, Htb, Ht1) Hc Hr2)
    as (Hs3 & _ & _ & _).
  pose proof (wf_start_lt s3 W Hs3 Hmem) as Hab.
  set (a := Combiner.w_start W) in *. set (b := Combiner.w_end W) in *.
  rewrite overlap_ok in Ho1, Ho2 by done.
  injection Ho1 as <-. injection Ho2 as <-.
  pose proof (overlap_nonneg st1 et1 a b Hse1 Hab) as Hn1.
  pose proof (overlap_nonneg st2 et2 a b Hse2 Hab) as Hn2.
  set (o1 := overlap_val st1 et1 a b) in *.
  set (o2 := overlap_val st2 et2 a b) in *.
  (* after the first [put], and the calls following it *)
  assert (HA : forall W1, Combiner.window_at s1 w = Some W1 ->
            Combiner.w_start W1 = a -> Combiner.w_end W1 = b ->
            Combiner.data W1 !! topic = Some (if qlt 0 o1 then Some d1 else None)
            /\ Combiner.overlaps W1 !! topic = Some (py_max 0 o1)).
  { intros W1 HW1 Ha Hb'.
    destruct (put_slot topic d1 st1 et1 s s1 w W1 None 0 Hs Hse1 ltac:(lra)
                Hp1 HW1 ltac:(intros W0 HW0 _ _; by apply H0) ltac:(done)) as [E1 E2].
    rewrite Ha, Hb' in E1, E2. split; [rewrite E1 | done]. reflexivity. }
  assert (Hlate : forall x, Combiner._next_start_time s1 <= x -> x = a ->
            o1 = 0).
  { intros x Hx ->. apply overlap_before. lra. }
  assert (HB : forall Wb, Combiner.window_at sb w = Some Wb ->
            Combiner.w_start Wb = a -> Combiner.w_end Wb = b ->
            Combiner.data Wb !! topic = Some (if qlt 0 o1 then Some d1 else None)
            /\ Combiner.overlaps Wb !! topic = Some (py_max 0 o1)).
  { intros Wb HWb Ha Hb'.
    apply (run_slot topic opsb s1 sb w Wb _ _ Hs1 ltac:(by rewrite Ht1) Hb Hr1 HWb).
    - intros W1 HW1 Ha1 Hb1. apply HA; congruence.
    - intros _ Hle. rewrite (Hlate (Combiner.w_start Wb) Hle Ha). done. }
  (* after the second [put] *)
  assert (HC : forall W2, Combiner.window_at s2 w = Some W2 ->
            Combiner.w_start W2 = a -> Combiner.w_end W2 = b ->
            Combiner.data W2 !! topic
              = Some (if qlt (py_max 0 o1) o2 then Some d2
                      else if qlt 0 o1 then Some d1 else None)
            /\ Combiner.overlaps W2 !! topic = Some (py_max (py_max 0 o1) o2)).
  { intros W2 HW2 Ha Hb'.
    destruct (put_slot topic d2 st2 et2 sb s2 w W2
                (if qlt 0 o1 then Some d1 else None) (py_max 0 o1) Hsb Hse2
                (py_max_0_nonneg o1) Hp2 HW2) as [E1 E2].
    - intros Wb HWb Ha' Hb''. apply HB; congruence.
    - intros _ Hle. rewrite (Hlate (Combiner.w_start W2)) by (done || lra). done.
    - rewrite Ha, Hb' in E1, E2. done. }
  destruct (run_slot topic opsc s2 s3 w W
              (if qlt (py_max 0 o1) o2 then Some d2 else if qlt 0 o1 then Some d1 else None)
              (py_max (py_max 0 o1) o2) Hs2 ltac:(by rewrite Ht2, Htb, Ht1) Hc Hr2 HW)
    as [E _].
  - intros W2 HW2 Ha Hb'. apply HC; done.
  - intros _ Hle. fold a in Hle. rewrite (Hlate a) by (done || lra).
    assert (o2 = 0) as -> by (apply overlap_before; lra). done.
  - rewrite E. f_equal. unfold py_max. qcase; try reflexivity; lra.
Qed.

(** C1, counterexample. In Combiner(0, 10, ["x"]), the data 1 on [2, 2] and
    then 2 on [7, 7] both have overlap 0 with the window [0, 10): the
    overlaps are equal, yet the earlier datum is not retained, the slot of
    "x" stays empty. *)
Lemma Combiner_equal_zero_overlaps_counterexample :
  (exists o1 o2, Combiner._overlap 2 2 0 10 = Ok o1 /\ Combiner._overlap 7 7 0 10 = Ok o2
     /\ o1 == 0 /\ o2 == 0)
  /\ exists s0 s1 s2 W,
       Combiner.__init__ 0 10 ["x"] = Ok s0
       /\ Combiner.put "x" 1%nat 2 2 s0 = Ok s1
       /\ Combiner.put "x" 2%nat 7 7 s1 = Ok s2
       /\ Combiner.window_at s2 0 = Some W
       /\ Combiner.w_start W = 0 /\ Combiner.w_end W = 10
       /\ Combiner.data W !! "x" = Some None.
Proof.
  split.
  - do 2 eexists. split_and!; [reflexivity | reflexivity | reflexivity | reflexivity].
  - do 4 eexists. split_and!; reflexivity.
Qed.

(** The value of a call that returns normally, evaluated. *)
Ltac ok_val r :=
  let v := eval vm_compute in r in
  match v with Ok ?x => x | Some ?x => x end.

Lemma Combiner_put_keeps_greater_overlap_witness :
  exists s0 s1 s2 W,
    Combiner.__init__ 0 10 ["x"] = Ok s0
    /\ Combiner.put "x" 1%nat 0 5 s0 = Ok s1
    /\ Combiner.put "x" 2%nat 3 10 s1 = Ok s2
    /\ Combiner.window_at s2 0 = Some W
    /\ Combiner.data W !! "x" = Some (Some 2%nat).
Proof.
  let s0 := ok_val (Combiner.__init__ (D:=nat) 0 10 ["x"]) in
  let s1 := ok_val (Combiner.put "x" 1%nat 0 5 s0) in
  let s2 := ok_val (Combiner.put "x" 2%nat 3 10 s1) in
  let W := ok_val (Combiner.window_at s2 0) in
  exists s0, s1, s2, W;
  split_and!; [reflexivity | reflexivity | reflexivity | reflexivity |];
  rewrite (Combiner_put_keeps_greater_overlap "x" 1%nat 2%nat 0 5 3 10 [] []
             s0 s1 s1 s2 s2 0 W (5 # 10) (7 # 10)).
  - reflexivity.
  - apply (init_wf 0 10 ["x"]); [lra | reflexivity].
  - lra.
  - lra.
  - constructor.
  - constructor.
  - reflexivity.
  - reflexivity.
  - reflexivity.
  - reflexivity.
  - intros W0 HW0. discriminate HW0.
  - reflexivity.
  - reflexivity.
  - reflexivity.
Defined.

Section CombinerFirstPut.
Context {D : Type}.
Import Combiner.

Lemma filter_all {A} (p : A -> bool) (l : list A) :
  (forall x, In x l -> p x = true) -> List.filter p l = l.
Proof.
  induction l as [|x r IH]; intros H; [done |]. simpl.
  rewrite (H x (or_introl eq_refl)). f_equal. apply IH. intros y Hy. apply H. by right.
Qed.

Lemma filter_all_false {A} (p : A -> bool) (l : list A) :
  (forall x, In x l -> p x = false) -> List.filter p l = [].
Proof.
  induction l as [|x r IH]; intros H; [done |]. simpl.
  rewrite (H x (or_introl eq_refl)). apply IH. intros y Hy. apply H. by right.
Qed.

Lemma ends_sorted (s : t D) :
  wf s -> StronglySorted (fun a b : window D => w_end a <= w_end b) (_windows s).
Proof.
  intros Hs. pose proof (wf_sorted s Hs) as Hso. pose proof (wf_len s Hs) as Hl.
  induction (_windows s) as [|w r IH]; [constructor |].
  inversion Hso as [|? ? Hr Hall]; subst. constructor.
  - apply IH; [done |]. intros y Hy. apply Hl. set_solver.
  - rewrite Forall_forall in Hall |- *. intros y Hy.
    pose proof (Hall y Hy). pose proof (Hl w ltac:(set_solver)).
    pose proof (Hl y ltac:(set_solver)). lra.
Qed.

(** With the window ends in order, the [del self._windows[0]] loop removes
    exactly the windows whose end time is strictly before [start_time]. *)
Lemma drop_ended_filter st (ws : list (window D)) :
  StronglySorted (fun a b : window D => w_end a <= w_end b) ws ->
  drop_ended st ws = List.filter (fun w => negb (qlt (w_end w) st)) ws.
Proof.
  induction ws as [|w r IH]; intros Hs; [done |].
  inversion Hs as [|? ? Hr Hall]; subst. simpl.
  destruct (qlt (w_end w) st) eqn:E; simpl; [by apply IH |].
  f_equal. symmetry. apply filter_all. intros y Hy.
  apply qlt_false in E. rewrite Forall_forall in Hall.
  pose proof (Hall y (proj2 (list_elem_of_In _ _) Hy)).
  destruct (qlt (w_end y) st) eqn:E'; [| done]. apply qlt_true in E'. lra.
Qed.

(** The fast-forward [next_start_time += duration * int(diff / duration)]:
    a whole number [k >= 0] of durations, the largest one not passing
    [start_time]. *)
Lemma fast_forward_bounds ns dur st :
  0 < dur -> ns < st ->
  let k := py_int ((st - ns) / dur) in
  (0 <= k)%Z /\ ns + dur * inject_Z k <= st /\ st < ns + dur * inject_Z k + dur.
Proof.
  intros Hd Hlt k.
  set (q := (st - ns) / dur).
  assert (Hq0 : 0 <= q) by (apply Qdiv_nonneg; lra).
  assert (Hk : k = Qfloor q).
  { unfold k, py_int. fold q. destruct (Qle_bool 0 q) eqn:E; [done |].
    apply Qle_bool_iff in Hq0. congruence. }
  assert (Hdq : dur * q == st - ns).
  { unfold q. rewrite Qmult_div_r; [reflexivity | lra]. }
  pose proof (Qfloor_le q) as Hfl. pose proof (Qlt_floor q) as Hfu.
  rewrite <- Hk in Hfl, Hfu. rewrite inject_Z_plus in Hfu.
  change (inject_Z 1) with 1 in Hfu.
  split; [rewrite Hk; change 0%Z with (Qfloor 0); by apply Qfloor_resp_le |].
  pose proof (Qmult_le_l (inject_Z k) q dur Hd) as [_ H1]. specialize (H1 Hfl).
  pose proof (Qmult_lt_l q (inject_Z k + 1) dur Hd) as [_ H2]. specialize (H2 Hfu).
  rewrite Qmult_plus_distr_r in H2. split; lra.
Qed.

Lemma find_start_elem (ws : list (window D)) W :
  StronglySorted (fun a b : window D => w_start a < w_start b) ws -> W ∈ ws ->
  find_start (w_start W) ws = Some W.
Proof.
  induction ws as [|x r IH]; intros Hs HW; [by apply elem_of_nil in HW |].
  inversion Hs as [|? ? Hr Hall]; subst. simpl.
  apply elem_of_cons in HW as [-> | HW].
  - by rewrite (proj2 (Qeq_bool_iff _ _) (Qeq_refl _)).
  - rewrite Forall_forall in Hall. pose proof (Hall W HW) as Hlt.
    destruct (Qeq_bool (w_start x) (w_start W)) eqn:E;
      [apply Qeq_bool_iff in E; lra | by apply IH].
Qed.

(** The rest of a topic's first [put]: a queued window that ends exactly at
    the datum's start time survives the removal loop, and the marking loop
    then marks it ready for the topic without storing the datum in it. *)
Lemma first_put_touching topic (d : D) st et (s s' : t D) W :
  wf s -> st <= et -> _initialized s !! topic = Some false ->
  put topic d st et s = Ok s' -> W ∈ _windows s -> w_end W == st ->
  window_at s' (w_start W) = Some (mark topic W).
Proof.
  intros Hs Hse Hi Hp HW Hend.
  pose proof (wf_end s Hs W HW) as HWe.
  assert (Ht : topic ∈ _topics s) by (apply (wf_init s Hs); rewrite Hi; by eexists).
  unfold put, getitem in Hp. rewrite Hi in Hp. simpl in Hp.
  destruct (_first_put topic st s) as [s1|] eqn:Hf; [| done]. simpl in Hp.
  assert (Hw1 : _windows s1 = drop_ended st (_windows s)).
  { unfold _first_put in Hf.
    assert (E : qlt (_next_start_time s) st = false) by (apply qlt_false; lra).
    rewrite E in Hf. simpl in Hf. by injection Hf as <-. }
  destruct (first_put_wf topic st s s1 Hs Ht Hf) as (Hs1 & _ & Ht1 & _ & _).
  assert (HW1 : W ∈ _windows s1).
  { rewrite Hw1, drop_ended_filter by (by apply ends_sorted).
    apply list_elem_of_In, filter_In. split; [by apply list_elem_of_In |].
    apply negb_true_iff, qlt_false. lra. }
  pose proof (wf_sorted s1 Hs1) as Hso1.
  pose proof (wf_start_lt s1 W Hs1 HW1) as HWlt.
  destruct (_windows s1) as [|w0 r] eqn:E1; [by apply elem_of_nil in HW1 |].
  unfold py_index in Hp. rewrite ?E1 in Hp. simpl in Hp.
  assert (Hw0 : w_start w0 <= w_start W).
  { apply elem_of_cons in HW1 as [-> | HW1]; [lra |].
    inversion Hso1 as [|? ? _ Hall]; subst. rewrite Forall_forall in Hall.
    specialize (Hall W HW1). lra. }
  assert (E2 : qlt et (w_start w0) = false) by (apply qlt_false; lra).
  rewrite E2 in Hp. simpl in Hp.
  destruct (fill (fill_fuel et s1) et s1) as [s3|] eqn:Hf3; [| done]. simpl in Hp.
  destruct (fill_spec _ et s1 s3 Hs1 ltac:(by rewrite E1) Hf3)
    as (Hs3 & Ht3 & _ & _ & _ & new & Hw3 & _).
  rewrite scan_map in Hp; [| done | apply (wf_sorted s3 Hs3) |].
  2:{ intros w Hw. split; [by apply (wf_start_lt s3) |]. apply (wf_keys s3 Hs3 w); [done |].
      by rewrite Ht3, Ht1. }
  simpl in Hp. injection Hp as <-.
  unfold window_at. simpl. rewrite Hw3, E1, find_start_map, find_start_app.
  rewrite (find_start_elem (w0 :: r) W Hso1 HW1). simpl. unfold step.
  by rewrite (proj2 (qle_true (w_end W) st)) by lra.
Qed.

End CombinerFirstPut.

(** C2. The handling of the first datum put on a topic ([_initialized] false
    for it: lines 96-106 of [put]) removes from the queue exactly the
    windows whose end time is strictly before the datum's start time; a
    window ending exactly at the start time is kept. When the start time is
    past the pointer (all windows then removed), the pointer moves forward
    by a whole number [k >= 0] of durations, the largest one that does not
    pass the start time; otherwise it stays. When the whole [put] succeeds
    (with start_time <= end_time), a window that ended exactly at the start
    time is still in the queue afterwards, marked ready for the topic, and
    its slot for the topic is unchanged: the datum is not stored in it. *)
Theorem Combiner_first_put_drops_ended {D} topic st (s : Combiner.t D) :
  wf s ->
  (exists s1, Combiner._first_put topic st s = Ok s1
  /\ Combiner._windows s1
     = List.filter (fun w => negb (qlt (Combiner.w_end w) st)) (Combiner._windows s)
  /\ Combiner._initialized s1 = <[topic := true]> (Combiner._initialized s)
  /\ (st <= Combiner._next_start_time s ->
      Combiner._next_start_time s1 = Combiner._next_start_time s)
  /\ (Combiner._next_start_time s < st ->
      Combiner._windows s1 = []
      /\ exists k : Z, (0 <= k)%Z
         /\ Combiner._next_start_time s1
            = Combiner._next_start_time s + Combiner._window_duration s * inject_Z k
         /\ Combiner._next_start_time s1 <= st
         /\ st < Combiner._next_start_time s1 + Combiner._window_duration s))
  /\ (forall (d : D) et s' W,
        Combiner._initialized s !! topic = Some false -> st <= et ->
        Combiner.put topic d st et s = Ok s' ->
        W ∈ Combiner._windows s -> Combiner.w_end W == st ->
        exists W', Combiner.window_at s' (Combiner.w_start W) = Some W'
          /\ Combiner.w_start W' = Combiner.w_start W
          /\ Combiner.w_end W' = Combiner.w_end W
          /\ Combiner.statuses W' !! topic = Some true
          /\ Combiner.data W' !! topic = Combiner.data W !! topic).
Proof.
  intros Hs. split.
  2:{ intros d et s' W Hi Hse Hp HW Hend. exists (Combiner.mark topic W).
      rewrite (first_put_touching topic d st et s s' W Hs Hse Hi Hp HW Hend).
      simpl. split_and!; [done | done | done | by rewrite lookup_insert_eq | done]. }
  pose proof (wf_dur s Hs) as Hd.
  rewrite <- (drop_ended_filter st _ (ends_sorted s Hs)).
  unfold Combiner._first_put.
  destruct (qlt (Combiner._next_start_time s) st) eqn:E.
  - apply qlt_true in E. unfold py_div.
    destruct (Qeq_bool (Combiner._window_duration s) 0) eqn:E0;
      [apply Qeq_bool_iff in E0; lra |].
    simpl. eexists. split_and!; [reflexivity | reflexivity | reflexivity | intros; lra |].
    intros _. simpl. split.
    + destruct (Combiner._windows s) as [|w r] eqn:Ew; [done |]. simpl.
      assert (Hw : w ∈ Combiner._windows s) by (rewrite Ew; set_solver).
      pose proof (wf_end s Hs w Hw).
      destruct (qlt (Combiner.w_end w) st) eqn:E1; [| apply qlt_false in E1; lra].
      rewrite drop_ended_filter.
      * apply filter_all_false. intros y Hy.
        assert (Hy' : y ∈ Combiner._windows s) by (rewrite Ew; apply list_elem_of_In in Hy; set_solver).
        pose proof (wf_end s Hs y Hy'). apply negb_false_iff, qlt_true. lra.
      * pose proof (ends_sorted s Hs) as Hso. rewrite Ew in Hso. by inversion Hso.
    + destruct (fast_forward_bounds _ _ st Hd E) as (Hk & H1 & H2).
      eexists. split_and!; [exact Hk | reflexivity | exact H1 | exact H2].
  - apply qlt_false in E. eexists. split_and!; [reflexivity | reflexivity | reflexivity | done |].
    intros. lra.
Qed.

(** C2, counterexample. In Combiner(0, 10, ["x"; "y"]), after a datum of
    "x" on [0, 5], the first datum of "y" starts at 10: the window [0, 10),
    which entirely precedes it, is not discarded; it stays in the queue,
    marked ready for "y" with no datum of "y". *)
Lemma Combiner_first_put_keeps_touching_window_counterexample :
  exists s0 s1 s2 W,
    Combiner.__init__ 0 10 ["x"; "y"] = Ok s0
    /\ Combiner.put "x" 1%nat 0 5 s0 = Ok s1
    /\ Combiner._initialized s1 !! "y" = Some false
    /\ Combiner.put "y" 2%nat 10 15 s1 = Ok s2
    /\ Combiner.window_at s2 0 = Some W
    /\ Combiner.w_start W = 0 /\ Combiner.w_end W = 10
    /\ Combiner.statuses W !! "y" = Some true
    /\ Combiner.data W !! "y" = Some None.
Proof. do 4 eexists. split_and!; reflexivity. Qed.

Lemma Combiner_first_put_drops_ended_witness :
  exists s,
    Combiner.put "x" 1%nat 0 5 (Combiner.mk 0 10 ["x"; "y"] (dict_of ["x"; "y"] false) []) = Ok s
    /\ (exists s1, Combiner._first_put "y" 10 s = Ok s1
    /\ Combiner._windows s1
       = List.filter (fun w => negb (qlt (Combiner.w_end w) 10)) (Combiner._windows s)
    /\ Combiner._initialized s1 = <[ "y" := true]> (Combiner._initialized s)
    /\ (10 <= Combiner._next_start_time s ->
        Combiner._next_start_time s1 = Combiner._next_start_time s)
    /\ (Combiner._next_start_time s < 10 ->
        Combiner._windows s1 = []
        /\ exists k : Z, (0 <= k)%Z
           /\ Combiner._next_start_time s1
              = Combiner._next_start_time s + Combiner._window_duration s * inject_Z k
           /\ Combiner._next_start_time s1 <= 10
           /\ 10 < Combiner._next_start_time s1 + Combiner._window_duration s))
    /\ (forall (d : nat) et s' W,
          Combiner._initialized s !! "y" = Some false -> 10 <= et ->
          Combiner.put "y" d 10 et s = Ok s' ->
          W ∈ Combiner._windows s -> Combiner.w_end W == 10 ->
          exists W', Combiner.window_at s' (Combiner.w_start W) = Some W'
            /\ Combiner.w_start W' = Combiner.w_start W
            /\ Combiner.w_end W' = Combiner.w_end W
            /\ Combiner.statuses W' !! "y" = Some true
            /\ Combiner.data W' !! "y" = Combiner.data W !! "y").
Proof.
  let s := ok_val (Combiner.put "x" 1%nat 0 5
                     (Combiner.mk 0 10 ["x"; "y"] (dict_of ["x"; "y"] false) [])) in
  exists s; split; [reflexivity |];
  apply (Combiner_first_put_drops_ended "y" 10 s).
  assert (H0 : wf (Combiner.mk (D:=nat) 0 10 ["x"; "y"] (dict_of ["x"; "y"] false) []))
    by (apply (init_wf 0 10 ["x"; "y"]); [lra | reflexivity]).
  refine (proj1 (put_spec "x" 1%nat 0 5 _ _ H0 _ _)); [lra | reflexivity].
Defined.

(* ===================================================================== *)
(** ** Aligner: the k-th datum of every topic goes to the k-th window *)
(* ===================================================================== *)

Section AlignerFacts.
Context {D : Type}.
Implicit Types (ps : list (string * D * Q * Q)) (ws : list (Aligner.window D)).

Lemma puts_app ps qs (s : Aligner.t D) :
  Aligner.puts (ps ++ qs) s = (s' ← Aligner.puts ps s; Aligner.puts qs s').
Proof.
  revert s; induction ps as [|[[[tp d] a] b] r IH]; intros s; simpl; [reflexivity |].
  destruct (Aligner.put tp d a b s); simpl; [apply IH | reflexivity].
Qed.

Lemma topic_data_snoc tp ps q :
  topic_data tp (ps ++ [q])
  = topic_data tp ps ++ (if decide (topic_of q = tp) then [datum_of_put q] else []).
Proof.
  unfold topic_data. rewrite filter_app, map_app. f_equal.
  rewrite filter_cons. by destruct (decide _).
Qed.

Lemma topic_count_snoc tp ps q :
  topic_count tp (ps ++ [q])
  = (topic_count tp ps + if decide (topic_of q = tp) then 1 else 0)%nat.
Proof. unfold topic_count. rewrite topic_data_snoc, length_app. by destruct (decide _). Qed.

Lemma topic_data_snoc_lookup tp ps q i :
  topic_data tp (ps ++ [q]) !! i
  = if decide (topic_of q = tp /\ i = topic_count tp ps) then Some (datum_of_put q)
    else topic_data tp ps !! i.
Proof.
  rewrite topic_data_snoc. unfold topic_count.
  destruct (decide (topic_of q = tp)) as [E|E].
  - destruct (decide (topic_of q = tp /\ i = length (topic_data tp ps))) as [[_ ->]|H].
    + by apply list_lookup_middle.
    + destruct (decide (i < length (topic_data tp ps))%nat).
      * by rewrite lookup_app_l.
      * rewrite lookup_app_r by lia. rewrite (lookup_ge_None_2 (topic_data tp ps)) by lia.
        destruct (i - length (topic_data tp ps))%nat as [|k] eqn:Ek; [| done].
        exfalso. apply H. split; [done | lia].
  - rewrite app_nil_r. rewrite decide_False by tauto. reflexivity.
Qed.

Lemma count_take_lt ps j q :
  ps !! j = Some q -> (topic_count (topic_of q) (take j ps) < topic_count (topic_of q) ps)%nat.
Proof.
  intros H. rewrite <- (take_drop_middle ps j q H) at 2.
  unfold topic_count, topic_data. rewrite filter_app, map_app, length_app, filter_cons.
  rewrite decide_True by done. simpl. lia.
Qed.

Lemma put_loop_fill tp (d : D) ws c W :
  (forall i W', (i < c)%nat -> ws !! i = Some W' -> Aligner.statuses W' !! tp = Some true) ->
  ws !! c = Some W -> Aligner.statuses W !! tp = Some false ->
  Aligner.put_loop tp d ws = Ok (Some (alter (Aligner.fill tp d) c ws)).
Proof.
  revert c; induction ws as [|w r IH]; intros c Hlt Hc Hs; [done |].
  destruct c as [|c].
  - simpl in Hc. injection Hc as ->. simpl. unfold getitem. rewrite Hs. reflexivity.
  - simpl. unfold getitem. rewrite (Hlt 0%nat w) by (done || lia). simpl.
    rewrite (IH c); [reflexivity | | done | done].
    intros i W' Hi HW'. apply (Hlt (S i)); [lia | done].
Qed.

Lemma put_loop_none tp (d : D) ws :
  (forall i W', ws !! i = Some W' -> Aligner.statuses W' !! tp = Some true) ->
  Aligner.put_loop tp d ws = Ok None.
Proof.
  induction ws as [|w r IH]; intros H; [done |]. simpl. unfold getitem.
  rewrite (H 0%nat w) by done. simpl. rewrite IH; [done |].
  intros i W' HW. apply (H (S i)), HW.
Qed.

Lemma foldr_max_le (f : string -> nat) l n :
  (forall x, x ∈ l -> (f x <= n)%nat) -> (foldr Nat.max 0%nat (map f l) <= n)%nat.
Proof.
  induction l as [|x r IH]; intros H; simpl; [lia |].
  pose proof (H x ltac:(set_solver)). assert (foldr Nat.max 0%nat (map f r) <= n)%nat.
  { apply IH. intros y Hy. apply H. set_solver. }
  lia.
Qed.

Lemma foldr_max_ge (f : string -> nat) l x :
  x ∈ l -> (f x <= foldr Nat.max 0%nat (map f l))%nat.
Proof.
  induction l as [|y r IH]; intros H; [set_solver |]. simpl.
  apply elem_of_cons in H as [->|H]; [lia |]. specialize (IH H). lia.
Qed.

(** One [put] of a known topic keeps the shape of the queue. *)
Lemma align_step topics ps ws tp (d : D) a b :
  tp ∈ topics -> (forall p, p ∈ ps -> topic_of p ∈ topics) -> align_inv topics ps ws ->
  exists ws', Aligner.put tp d a b (Aligner.mk topics ws) = Ok (Aligner.mk topics ws')
    /\ align_inv topics (ps ++ [(tp, d, a, b)]) ws'.
Proof.
  intros Htp Hps [Hk Hsl Hle Hmx Hti].
  set (c := topic_count tp ps).
  assert (Hc : (c <= length ws)%nat) by (apply Hle, Htp).
  assert (Hst : forall i W, ws !! i = Some W ->
            Aligner.statuses W !! tp = Some (bool_decide (i < c)%nat))
    by (intros i W HW; apply (Hsl i W tp HW Htp)).
  (* the windows before the change keep their times *)
  assert (Htimes : forall i W0, ws !! i = Some W0 ->
    exists j p, (ps ++ [(tp, d, a, b)]) !! j = Some p
      /\ topic_count (topic_of p) (take j (ps ++ [(tp, d, a, b)])) = i
      /\ Aligner.w_start W0 = p.1.2 /\ Aligner.w_end W0 = p.2
      /\ forall j' p', (j' < j)%nat -> (ps ++ [(tp, d, a, b)]) !! j' = Some p' ->
           topic_count (topic_of p') (take j' (ps ++ [(tp, d, a, b)])) <> i).
  { intros i W0 HW0. destruct (Hti i W0 HW0) as (j & p & Hj & Hcnt & Ha & Hb & Hmin).
    assert (Hjl : (j < length ps)%nat) by (by apply lookup_lt_Some in Hj).
    exists j, p. rewrite lookup_app_l, take_app_le by lia. split_and!; try done.
    intros j' p' Hj' Hp'. rewrite lookup_app_l in Hp' by lia. rewrite take_app_le by lia.
    by apply Hmin. }
  destruct (decide (c < length ws)%nat) as [Hlt|Hge].
  - (* the datum fills window [c] *)
    destruct (lookup_lt_is_Some_2 ws c Hlt) as [Wc HWc].
    exists (alter (Aligner.fill tp d) c ws). split.
    + unfold Aligner.put. simpl. rewrite (put_loop_fill tp d ws c Wc); [reflexivity | | done |].
      * intros i W' Hi HW'. rewrite (Hst i W' HW'). by rewrite bool_decide_eq_true_2.
      * rewrite (Hst c Wc HWc). by rewrite bool_decide_eq_false_2 by lia.
    + split.
      * intros W k HW. apply list_elem_of_lookup in HW as [i HWi].
        rewrite list_lookup_alter in HWi. destruct (decide (c = i)) as [<-|].
        -- rewrite HWc in HWi. simpl in HWi. injection HWi as <-. simpl.
           destruct (Hk Wc k (list_elem_of_lookup_2 _ _ _ HWc)) as [H1 H2].
           rewrite !lookup_insert_is_Some', H1, H2. naive_solver.
        -- apply (Hk W k (list_elem_of_lookup_2 _ _ _ HWi)).
      * intros i W tp' HW Htp'. rewrite list_lookup_alter in HW.
        rewrite topic_data_snoc_lookup, topic_count_snoc. unfold topic_of, datum_of_put. simpl.
        destruct (decide (c = i)) as [<-|Hne].
        -- rewrite HWc in HW. simpl in HW. injection HW as <-. simpl.
           destruct (decide (tp = tp')) as [<-|Hne'].
           ++ rewrite !lookup_insert_eq. rewrite decide_True by done. split; [done |].
              f_equal. symmetry. apply bool_decide_eq_true_2. fold c. lia.
           ++ rewrite !lookup_insert_ne by done. rewrite decide_False by naive_solver.
              rewrite Nat.add_0_r. apply (Hsl c Wc tp' HWc Htp').
        -- destruct (Hsl i W tp' HW Htp') as [E1 E2]. rewrite E1, E2.
           destruct (decide (tp = tp')) as [<-|Hne'].
           ++ rewrite decide_False by (intros [_ Hi']; change (topic_count tp ps) with c in Hi'; lia). split; [done |].
              f_equal. apply bool_decide_ext. fold c. lia.
           ++ rewrite decide_False by naive_solver. by rewrite Nat.add_0_r.
      * intros tp' H. rewrite length_alter, topic_count_snoc. unfold topic_of. simpl.
        destruct (decide (tp = tp')) as [<-|]; [fold c; lia | specialize (Hle tp' H); lia].
      * rewrite length_alter. destruct Hmx as [->|[t0 [Ht0 Hc0]]]; [simpl in Hlt; lia |].
        right. exists t0. split; [done |]. rewrite topic_count_snoc. unfold topic_of. simpl.
        destruct (decide (tp = t0)) as [<-|]; [fold c in Hc0; lia | lia].
      * intros i W HW. rewrite list_lookup_alter in HW.
        destruct (decide (c = i)) as [<-|].
        -- rewrite HWc in HW. simpl in HW. injection HW as <-. apply (Htimes c Wc HWc).
        -- apply (Htimes i W HW).
  - (* every window has a datum of [tp]: a new window is opened *)
    assert (Hceq : c = length ws) by lia.
    set (Wn := Aligner.fill tp d (Aligner.mkw (dict_of topics None) a b (dict_of topics false))).
    exists (ws ++ [Wn]). split.
    + unfold Aligner.put. simpl. rewrite put_loop_none.
      * simpl. unfold Aligner._add_window. simpl. rewrite last_snoc, removelast_last. reflexivity.
      * intros i W' HW'. rewrite (Hst i W' HW'). apply lookup_lt_Some in HW'.
        by rewrite bool_decide_eq_true_2 by lia.
    + split.
      * intros W k HW. apply elem_of_app in HW as [HW|HW]; [by apply Hk |].
        apply list_elem_of_singleton in HW as ->. unfold Wn. simpl.
        rewrite !lookup_insert_is_Some', !dict_of_lookup.
        destruct (decide (k ∈ topics)); split; split; try naive_solver;
          intros [->|[? Hx]]; done.
      * intros i W tp' HW Htp'. rewrite topic_data_snoc_lookup, topic_count_snoc.
        unfold topic_of, datum_of_put. simpl.
        destruct (decide (i < length ws)%nat).
        -- rewrite lookup_app_l in HW by lia. destruct (Hsl i W tp' HW Htp') as [E1 E2].
           rewrite E1, E2. destruct (decide (tp = tp')) as [<-|].
           ++ rewrite decide_False by (intros [_ Hi']; change (topic_count tp ps) with c in Hi'; lia). split; [done |].
              f_equal. apply bool_decide_ext. fold c. lia.
           ++ rewrite decide_False by naive_solver. by rewrite Nat.add_0_r.
        -- rewrite lookup_app_r in HW by lia.
           destruct (i - length ws)%nat as [|k] eqn:Ei; [| done]. simpl in HW.
           injection HW as <-. assert (i = length ws) as -> by lia. unfold Wn. simpl.
           destruct (decide (tp = tp')) as [<-|].
           ++ rewrite !lookup_insert_eq. rewrite decide_True by (split; [done | fold c; lia]).
              split; [done |]. f_equal. symmetry. apply bool_decide_eq_true_2. fold c. lia.
           ++ rewrite !lookup_insert_ne by done. rewrite !dict_of_lookup.
              destruct (decide (tp = tp' /\ length ws = topic_count tp' ps)) as [[? _]|_];
                [done |].
              rewrite Nat.add_0_r. do 2 (rewrite decide_True; [| done]).
              specialize (Hle tp' Htp'). split.
              ** f_equal. symmetry. apply lookup_ge_None_2. unfold topic_count in Hle. lia.
              ** f_equal. symmetry. apply bool_decide_eq_false_2. lia.
      * intros tp' H. rewrite length_app, topic_count_snoc. unfold topic_of. simpl.
        destruct (decide (tp = tp')) as [<-|]; [fold c; lia | specialize (Hle tp' H); lia].
      * right. exists tp. split; [done |]. rewrite topic_count_snoc, length_app.
        unfold topic_of. simpl. rewrite decide_True by done. fold c. lia.
      * intros i W HW. destruct (decide (i < length ws)%nat).
        -- rewrite lookup_app_l in HW by lia. apply (Htimes i W HW).
        -- rewrite lookup_app_r in HW by lia.
           destruct (i - length ws)%nat as [|k] eqn:Ei; [| done]. simpl in HW.
           injection HW as <-. assert (i = length ws) as -> by lia.
           exists (length ps), (tp, d, a, b).
           rewrite take_app_length. split_and!; [by apply list_lookup_middle | done | done | done |].
           intros j' p' Hj' Hp'. rewrite lookup_app_l in Hp' by lia.
           rewrite take_app_le by lia. pose proof (count_take_lt ps j' p' Hp').
           pose proof (Hle (topic_of p') (Hps p' (list_elem_of_lookup_2 _ _ _ Hp'))). lia.
Qed.

End AlignerFacts.

Section AlignerNextFacts.
Context {D : Type}.
Implicit Types (ps : list (string * D * Q * Q)) (ws : list (Aligner.window D)).

Lemma ready_iff (W : Aligner.window D) :
  Aligner._is_window_ready W = true <->
  forall k b, Aligner.statuses W !! k = Some b -> b = true.
Proof.
  unfold Aligner._is_window_ready. rewrite forallb_forall. split.
  - intros H k b Hk. apply (H (k, b)). apply list_elem_of_In, elem_of_map_to_list, Hk.
  - intros H [k b] Hin. apply list_elem_of_In, elem_of_map_to_list in Hin. apply (H k b Hin).
Qed.

Lemma not_ready (W : Aligner.window D) :
  Aligner._is_window_ready W = false -> exists k, Aligner.statuses W !! k = Some false.
Proof.
  unfold Aligner._is_window_ready. intros H.
  assert (Hex : forall l : list (string * bool), forallb snd l = false ->
            exists x, In x l /\ snd x = false).
  { induction l as [|x r IH]; simpl; [done |].
    destruct (snd x) eqn:E; simpl; [| eauto].
    intros Hr. destruct (IH Hr) as [y [? ?]]. eauto. }
  destruct (Hex _ H) as [[k b] [Hin Hb]]. simpl in Hb. subst b.
  exists k. apply elem_of_map_to_list, list_elem_of_In, Hin.
Qed.

Lemma puts_from_init topics ps :
  (forall p, p ∈ ps -> topic_of p ∈ topics) ->
  exists ws, Aligner.puts ps (Aligner.mk topics []) = Ok (Aligner.mk topics ws)
    /\ align_inv topics ps ws.
Proof.
  induction ps as [|q ps IH] using rev_ind; intros Hps.
  - exists []. split; [reflexivity |]. split.
    + intros W k HW. set_solver.
    + intros i W topic HW. done.
    + intros topic _. unfold topic_count, topic_data. simpl. lia.
    + by left.
    + intros i W HW. done.
  - destruct IH as [ws [Hrun Hinv]].
    { intros p Hp. apply Hps. set_solver. }
    destruct q as [[[tp d] a] b].
    destruct (align_step topics ps ws tp d a b) as [ws' [Hput Hinv']]; [| | done |].
    + apply (Hps (tp, d, a, b)). set_solver.
    + intros p Hp. apply Hps. set_solver.
    + exists ws'. split; [| done].
      rewrite puts_app, Hrun. simpl. rewrite Hput. reflexivity.
Qed.

Lemma align_windows_nonempty topics ps ws :
  (forall p, p ∈ ps -> topic_of p ∈ topics) -> align_inv topics ps ws ->
  ps <> [] -> ws <> [].
Proof.
  intros Hps Hinv Hne ->. destruct ps as [|p ps]; [done |].
  pose proof (ai_le _ _ _ Hinv (topic_of p) (Hps p ltac:(set_solver))) as Hle.
  unfold topic_count, topic_data in Hle. rewrite filter_cons, decide_True in Hle by done.
  simpl in Hle. lia.
Qed.

Lemma align_max_count topics ps ws :
  align_inv topics ps ws -> length ws = max_count topics ps.
Proof.
  intros Hinv. unfold max_count. apply Nat.le_antisymm.
  - destruct (ai_max _ _ _ Hinv) as [->|[t0 [Ht0 Hc0]]]; [simpl; lia |].
    rewrite <- Hc0. apply (foldr_max_ge (fun topic => topic_count topic ps)), Ht0.
  - apply foldr_max_le. intros x Hx. apply (ai_le _ _ _ Hinv x Hx).
Qed.

End AlignerNextFacts.

(** X1 (Aligner.put, Aligner._add_window). From a fresh [Aligner(topics)],
    a sequence of [put] calls whose topics are all in [topics] never raises.
    The queue then holds as many windows as the largest number of data of
    one topic, and the window at index i holds the (i+1)-th datum of each
    topic with status True, or None with status False when the topic has
    fewer data ([align_inv], field [ai_slots]); its keys are exactly the
    topics; its start and end times are those of the first datum in the
    sequence that was the (i+1)-th of its own topic ([ai_times]). *)
Theorem Aligner_puts_aligned {D} (topics : list string) (ps : list (string * D * Q * Q)) :
  (forall p, p ∈ ps -> topic_of p ∈ topics) ->
  exists s, (s0 ← Aligner.__init__ topics; Aligner.puts ps s0) = Ok s
    /\ Aligner._topics s = topics
    /\ length (Aligner._windows s) = max_count topics ps
    /\ align_inv topics ps (Aligner._windows s).
Proof.
  intros Hps. destruct (puts_from_init topics ps Hps) as [ws [Hrun Hinv]].
  exists (Aligner.mk topics ws). split_and!; [exact Hrun | reflexivity | |exact Hinv].
  apply (align_max_count _ _ _ Hinv).
Qed.

Lemma Aligner_puts_aligned_witness :
  (forall p, p ∈ [("x", 1%nat, 0, 1); ("y", 2%nat, 0, 2); ("x", 3%nat, 1, 2)] ->
     topic_of p ∈ ["x"; "y"]%string)
  /\ exists s, (s0 ← Aligner.__init__ ["x"; "y"]%string;
               Aligner.puts [("x", 1%nat, 0, 1); ("y", 2%nat, 0, 2); ("x", 3%nat, 1, 2)] s0) = Ok s
    /\ Aligner._topics s = ["x"; "y"]%string
    /\ length (Aligner._windows s)
       = max_count ["x"; "y"]%string [("x", 1%nat, 0, 1); ("y", 2%nat, 0, 2); ("x", 3%nat, 1, 2)]
    /\ align_inv ["x"; "y"]%string [("x", 1%nat, 0, 1); ("y", 2%nat, 0, 2); ("x", 3%nat, 1, 2)]
         (Aligner._windows s).
Proof.
  split.
  - intros p Hp. repeat (apply elem_of_cons in Hp as [->|Hp]); [set_solver .. |].
    by apply elem_of_nil in Hp.
  - apply Aligner_puts_aligned.
    intros p Hp. repeat (apply elem_of_cons in Hp as [->|Hp]); [set_solver .. |].
    by apply elem_of_nil in Hp.
Defined.

(** X2 (Aligner.next, Aligner._is_window_ready). After a sequence of [put]
    calls on a fresh [Aligner(topics)] (topics all in [topics]) in which
    every topic has at least one datum, [next] pops the first window and
    returns its data, which maps each topic to the first datum put on that
    topic, with the start and end times of the very first datum put. *)
Theorem Aligner_next_first_data {D} (topics : list string) (ps : list (string * D * Q * Q))
    (s : Aligner.t D) :
  (forall p, p ∈ ps -> topic_of p ∈ topics) ->
  (s0 ← Aligner.__init__ topics; Aligner.puts ps s0) = Ok s ->
  ps <> [] -> (forall topic, topic ∈ topics -> (0 < topic_count topic ps)%nat) ->
  exists W ws p, Aligner._windows s = W :: ws /\ ps !! 0%nat = Some p
    /\ Aligner.next s = Ok ((Aligner.data W, p.1.2, p.2), Aligner.mk topics ws)
    /\ forall topic, topic ∈ topics -> Aligner.data W !! topic = Some (head (topic_data topic ps)).
Proof.
  intros Hps Hrun Hne Hall.
  destruct (puts_from_init topics ps Hps) as [ws0 [Hrun0 Hinv]].
  simpl in Hrun. rewrite Hrun0 in Hrun. injection Hrun as <-. simpl.
  destruct ws0 as [|W ws]; [by destruct (align_windows_nonempty _ _ _ Hps Hinv Hne) |].
  destruct (ai_times _ _ _ Hinv 0%nat W eq_refl) as (j & p & Hj & _ & Ha & Hb & Hmin).
  destruct ps as [|p0 ps']; [done |].
  assert (j = 0%nat) as ->.
  { destruct j as [|j]; [done |]. exfalso. apply (Hmin 0%nat p0); [lia | done |].
    reflexivity. }
  exists W, ws, p. split_and!; [done | done | |].
  - unfold Aligner.next. simpl.
    assert (Aligner._is_window_ready W = true) as ->.
    { apply ready_iff. intros k b Hk.
      assert (Hkt : k ∈ topics).
      { apply (ai_keys _ _ _ Hinv W k ltac:(set_solver)). by exists b. }
      destruct (ai_slots _ _ _ Hinv 0%nat W k eq_refl Hkt) as [_ E]. rewrite Hk in E.
      injection E as ->. apply bool_decide_eq_true_2, Hall, Hkt. }
    rewrite Ha, Hb. reflexivity.
  - intros topic Ht. destruct (ai_slots _ _ _ Hinv 0%nat W topic eq_refl Ht) as [E _].
    rewrite E. by destruct (topic_data topic (p0 :: ps')).
Qed.

(** X3 (Aligner.next, Aligner._is_window_ready). After a sequence of [put]
    calls on a fresh [Aligner(topics)] (topics all in [topics]), [next]
    raises StopIteration exactly when no datum was put or some topic has
    no datum yet. *)
Theorem Aligner_next_StopIteration {D} (topics : list string) (ps : list (string * D * Q * Q))
    (s : Aligner.t D) :
  (forall p, p ∈ ps -> topic_of p ∈ topics) ->
  (s0 ← Aligner.__init__ topics; Aligner.puts ps s0) = Ok s ->
  (Aligner.next s = Err StopIteration
   <-> ps = [] \/ exists topic, topic ∈ topics /\ topic_count topic ps = 0%nat).
Proof.
  intros Hps Hrun.
  destruct (puts_from_init topics ps Hps) as [ws0 [Hrun0 Hinv]].
  simpl in Hrun. rewrite Hrun0 in Hrun. injection Hrun as <-.
  unfold Aligner.next. simpl. split.
  - intros Hstop. destruct ps as [|p0 ps']; [by left | right].
    destruct ws0 as [|W ws];
      [by destruct (align_windows_nonempty _ _ _ Hps Hinv ltac:(done)) |].
    destruct (Aligner._is_window_ready W) eqn:Er; [done |].
    destruct (not_ready W Er) as [k Hk].
    assert (Hkt : k ∈ topics).
    { apply (ai_keys _ _ _ Hinv W k ltac:(set_solver)). by exists false. }
    destruct (ai_slots _ _ _ Hinv 0%nat W k eq_refl Hkt) as [_ E]. rewrite Hk in E.
    injection E as E. exists k. split; [done |].
    destruct (topic_count k (p0 :: ps')); [done |].
    rewrite bool_decide_eq_true_2 in E by lia. done.
  - intros [->|[topic [Ht Hc]]].
    + simpl in Hrun0. injection Hrun0 as <-. reflexivity.
    + destruct ws0 as [|W ws]; [reflexivity |].
      destruct (Aligner._is_window_ready W) eqn:Er; [| reflexivity]. exfalso.
      destruct (ai_slots _ _ _ Hinv 0%nat W topic eq_refl Ht) as [_ E].
      rewrite Hc in E. pose proof (proj1 (ready_iff W) Er topic _ E). done.
Qed.

Lemma Aligner_next_first_data_witness :
  exists s, (s0 ← Aligner.__init__ ["x"; "y"]%string;
             Aligner.puts [("x", 1%nat, 0, 1); ("y", 2%nat, 0, 2); ("x", 3%nat, 1, 2)] s0) = Ok s
  /\ exists W ws p, Aligner._windows s = W :: ws
    /\ [("x", 1%nat, 0, 1); ("y", 2%nat, 0, 2); ("x", 3%nat, 1, 2)] !! 0%nat = Some p
    /\ Aligner.next s = Ok ((Aligner.data W, p.1.2, p.2), Aligner.mk ["x"; "y"]%string ws)
    /\ forall topic, topic ∈ ["x"; "y"]%string -> Aligner.data W !! topic
       = Some (head (topic_data topic [("x", 1%nat, 0, 1); ("y", 2%nat, 0, 2); ("x", 3%nat, 1, 2)])).
Proof.
  eexists. split; [vm_compute; reflexivity |].
  apply Aligner_next_first_data.
  - intros p Hp. repeat (apply elem_of_cons in Hp as [->|Hp]); [set_solver .. |].
    by apply elem_of_nil in Hp.
  - vm_compute. reflexivity.
  - done.
  - intros topic Ht. repeat (apply elem_of_cons in Ht as [->|Ht]); [vm_compute; lia .. |].
    by apply elem_of_nil in Ht.
Defined.

Lemma Aligner_next_StopIteration_witness :
  exists s, (s0 ← Aligner.__init__ ["x"; "y"]%string;
             Aligner.puts [("x", 1%nat, 0, 1); ("x", 3%nat, 1, 2)] s0) = Ok s
  /\ (Aligner.next s = Err StopIteration
      <-> [("x", 1%nat, 0, 1); ("x", 3%nat, 1, 2)] = []
          \/ exists topic, topic ∈ ["x"; "y"]%string
               /\ topic_count topic [("x", 1%nat, 0, 1); ("x", 3%nat, 1, 2)] = 0%nat).
Proof.
  eexists. split; [vm_compute; reflexivity |].
  apply Aligner_next_StopIteration.
  - intros p Hp. repeat (apply elem_of_cons in Hp as [->|Hp]); [set_solver .. |].
    by apply elem_of_nil in Hp.
  - vm_compute. reflexivity.
Defined.

(** X4 (Aligner.put, Aligner._add_window). After a sequence of [put] calls
    on a fresh [Aligner(topics)] (topics all in [topics]), a [put] of a
    topic not in [topics] raises KeyError when at least one [put] was made
    (no [next] in between); on a fresh aligner it does not raise but opens a window whose data and
    statuses carry the unknown topic beside the declared ones. *)
Theorem Aligner_put_unknown_topic {D} (topics : list string) (ps : list (string * D * Q * Q))
    (s : Aligner.t D) topic (d : D) a b :
  (forall p, p ∈ ps -> topic_of p ∈ topics) ->
  (s0 ← Aligner.__init__ topics; Aligner.puts ps s0) = Ok s ->
  topic ∉ topics ->
  Aligner.put topic d a b s
  = match ps with
    | [] => Ok (Aligner.mk topics
                 [Aligner.mkw (<[topic := Some d]> (dict_of topics None)) a b
                              (<[topic := true]> (dict_of topics false))])
    | _ :: _ => Err KeyError
    end.
Proof.
  intros Hps Hrun Hnot.
  destruct (puts_from_init topics ps Hps) as [ws0 [Hrun0 Hinv]].
  simpl in Hrun. rewrite Hrun0 in Hrun. injection Hrun as <-.
  destruct ps as [|p0 ps'].
  - simpl in Hrun0. injection Hrun0 as <-. reflexivity.
  - destruct ws0 as [|W ws];
      [by destruct (align_windows_nonempty _ _ _ Hps Hinv ltac:(done)) |].
    unfold Aligner.put. simpl. unfold getitem.
    destruct (Aligner.statuses W !! topic) eqn:E; [| reflexivity].
    exfalso. apply Hnot. apply (ai_keys _ _ _ Hinv W topic ltac:(set_solver)).
    by rewrite E.
Qed.

Lemma Aligner_put_unknown_topic_witness :
  exists s, (s0 ← Aligner.__init__ ["x"; "y"]%string;
             Aligner.puts [("x", 1%nat, 0, 1)] s0) = Ok s
  /\ Aligner.put "z"%string 5%nat 0 1 s
     = match [("x", 1%nat, 0, 1)] with
       | [] => Ok (Aligner.mk ["x"; "y"]%string
                    [Aligner.mkw (<[("z"%string) := Some 5%nat]> (dict_of ["x"; "y"]%string None)) 0 1
                                 (<[("z"%string) := true]> (dict_of ["x"; "y"]%string false))])
       | _ :: _ => Err KeyError
       end.
Proof.
  eexists. split; [vm_compute; reflexivity |].
  apply (Aligner_put_unknown_topic ["x"; "y"]%string [("x", 1%nat, 0, 1)]).
  - intros p Hp. repeat (apply elem_of_cons in Hp as [->|Hp]); [set_solver .. |].
    by apply elem_of_nil in Hp.
  - vm_compute. reflexivity.
  - set_solver.
Defined.

(* ===================================================================== *)
(** ** Combiner: states reached from [__init__] *)
(* ===================================================================== *)

Section CombinerReach.
Context {D : Type}.
Import Combiner.

(** An invariant of [put] (under a condition on its times) and of [next]
    holds after a sequence of calls. *)
Lemma run_inv (okp : Q -> Q -> Prop) (P : t D -> Prop) (ops : list (op D)) (s s' : t D) :
  (forall topic d st et s s', P s -> okp st et -> put topic d st et s = Ok s' -> P s') ->
  (forall s out s', P s -> next s = Ok (out, s') -> P s') ->
  Forall (fun o => match o with OPut _ _ st et => okp st et | ONext => True end) ops ->
  P s -> run ops s = Ok s' -> P s'.
Proof.
  intros Hp Hn. revert s. induction ops as [|o r IH]; intros s Hall Hs Hr; simpl in Hr.
  - by injection Hr as <-.
  - inversion Hall as [|? ? Ho Hr']; subst. destruct o as [topic d st et|].
    + destruct (put topic d st et s) as [s1|] eqn:E; [| done]. simpl in Hr.
      apply (IH s1 Hr'); [exact (Hp _ _ _ _ _ _ Hs Ho E) | done].
    + destruct (next s) as [[out s1]|e] eqn:E.
      * apply (IH s1 Hr'); [exact (Hn _ _ _ Hs E) | done].
      * exact (IH s Hr' Hs Hr).
Qed.

Lemma fill_meta n et (s s' : t D) :
  fill n et s = Ok s' ->
  _topics s' = _topics s /\ _initialized s' = _initialized s
  /\ _window_duration s' = _window_duration s.
Proof.
  revert s; induction n as [|n IH]; intros s H; simpl in H;
    destruct (py_index (_windows s) (-1)) as [wl|]; try done; simpl in H;
    destruct (qle (w_start wl) et); try done.
  - by injection H as <-.
  - destruct (IH _ H) as (? & ? & ?). simpl in *. split_and!; congruence.
  - by injection H as <-.
Qed.

(** [put] keeps the topics, the duration and the keys of [_initialized]. *)
Lemma put_meta topic (d : D) st et (s s' : t D) :
  put topic d st et s = Ok s' ->
  _topics s' = _topics s /\ _window_duration s' = _window_duration s
  /\ forall k, is_Some (_initialized s' !! k) <-> is_Some (_initialized s !! k).
Proof.
  intros H. unfold put in H.
  destruct (getitem (_initialized s) topic) as [init|] eqn:Hg; [| done]. simpl in H.
  unfold getitem in Hg. destruct (_initialized s !! topic) as [b|] eqn:Hb; [| done].
  destruct (if init then Ok s else _first_put topic st s) as [s1|] eqn:Hs1e; [| done].
  simpl in H.
  assert (H1 : _topics s1 = _topics s /\ _window_duration s1 = _window_duration s
             /\ forall k, is_Some (_initialized s1 !! k) <-> is_Some (_initialized s !! k)).
  { destruct init.
    - by injection Hs1e as <-.
    - unfold _first_put in Hs1e.
      destruct (qlt _ _); [destruct (py_div _ _); [| done] |]; simpl in Hs1e;
        injection Hs1e as <-; simpl; split_and!; try done;
        intros k; rewrite lookup_insert_is_Some'; (split; [| by right]);
        (intros [<-|?]; [by exists b | done]). }
  destruct H1 as (Ht1 & Hd1 & Hk1).
  set (s2 := match _windows s1 with [] => _add_window s1 | _ :: _ => s1 end) in H.
  assert (Ht2 : _topics s2 = _topics s1 /\ _window_duration s2 = _window_duration s1
                /\ _initialized s2 = _initialized s1)
    by (subst s2; destruct (_windows s1); done).
  destruct Ht2 as (Ht2 & Hd2 & Hi2).
  destruct (py_index (_windows s2) 0) as [w0|]; [| done]. simpl in H.
  destruct (qlt et (w_start w0)).
  - injection H as <-. split_and!; [congruence | congruence |]. intros k. by rewrite Hi2.
  - destruct (fill _ et s2) as [s3|] eqn:Hf; [| done]. simpl in H.
    destruct (fill_meta _ _ _ _ Hf) as (Ht3 & Hi3 & Hd3).
    destruct (scan _ _ _ _ _) as [ws|]; [| done]. simpl in H. injection H as <-. simpl.
    split_and!; [congruence | congruence |]. intros k. by rewrite Hi3, Hi2.
Qed.

Lemma next_meta (s s' : t D) out :
  next s = Ok (out, s') ->
  _next_start_time s' = _next_start_time s /\ _window_duration s' = _window_duration s
  /\ _topics s' = _topics s /\ _initialized s' = _initialized s
  /\ exists w, _windows s = w :: _windows s'.
Proof.
  intros H. unfold next, py_index in H. simpl in H.
  destruct (_windows s) as [|w0 r] eqn:E; [done |]. simpl in H.
  destruct (_is_window_ready w0); [| done]. simpl in H. injection H as _ <-.
  simpl. split_and!; try done. by exists w0.
Qed.

(** The topics of a combiner reached from [__init__] are those it was given,
    and they are the keys of [_initialized]. *)
Lemma reach_keys start dur topics (ops : list (op D)) (s : t D) :
  (s0 ← __init__ start dur topics; run ops s0) = Ok s ->
  _topics s = topics /\ forall k, is_Some (_initialized s !! k) <-> k ∈ topics.
Proof.
  intros H. simpl in H.
  apply (run_inv (fun _ _ => True)
           (fun s => _topics s = topics /\ forall k, is_Some (_initialized s !! k) <-> k ∈ topics)
           ops (mk start dur topics (dict_of topics false) []) s); [| | | | exact H].
  - intros ? ? ? ? s1 s2 [Ht Hk] _ Hp. destruct (put_meta _ _ _ _ _ _ Hp) as (Ht' & _ & Hk').
    split; [congruence |]. intros k. by rewrite Hk'.
  - intros s1 out s2 [Ht Hk] Hn. destruct (next_meta _ _ _ Hn) as (_ & _ & Ht' & Hi' & _).
    split; [congruence |]. intros k. by rewrite Hi'.
  - apply Forall_forall. intros [] _; done.
  - simpl. split; [done |]. intros k. rewrite dict_of_lookup.
    destruct (decide (k ∈ topics)); split; intros Hx; done.
Qed.

(** Every state reached from a fresh combiner with a positive duration by
    calls whose data have [start_time <= end_time] satisfies [wf]. *)
Lemma reach_wf start dur topics (ops : list (op D)) (s : t D) :
  0 < dur -> Forall well_timed ops ->
  (s0 ← __init__ start dur topics; run ops s0) = Ok s -> wf s.
Proof.
  intros Hd Hall H. simpl in H.
  apply (run_inv (fun st et => st <= et) wf ops (mk start dur topics (dict_of topics false) []) s);
    [| | | | exact H].
  - intros ? ? ? ? s1 s2 Hs Hse Hp. apply (put_spec _ _ _ _ _ _ Hs Hse Hp).
  - intros s1 out s2 Hs Hn. apply (next_spec _ _ _ Hs Hn).
  - eapply Forall_impl; [exact Hall |]. by intros [].
  - by apply (init_wf start dur topics).
Qed.

End CombinerReach.

(* ===================================================================== *)
(** ** Combiner: the windows stay on the grid of [start_time] *)
(* ===================================================================== *)

Section CombinerGrid.
Context {D : Type}.
Import Combiner.

Lemma tiled_snoc dur ns topics (ws : list (window D)) :
  tiled dur ns ws -> tiled dur (ns + dur) (ws ++ [blank topics ns (ns + dur)]).
Proof.
  induction ws as [|w r IH]; simpl; intros H.
  - split_and!; reflexivity || done.
  - destruct H as (H1 & H2 & H3). split_and!; [done | | by apply IH].
    destruct r; simpl in *; done.
Qed.

Lemma tiled_drop dur ns (ws : list (window D)) k : tiled dur ns ws -> tiled dur ns (drop k ws).
Proof.
  revert ws; induction k as [|k IH]; intros ws H; [done |].
  destruct ws as [|w r]; [done |]. simpl. apply IH. apply H.
Qed.

Lemma tiled_ends_le dur ns (ws : list (window D)) :
  0 < dur -> tiled dur ns ws -> forall w, w ∈ ws -> w_end w <= ns.
Proof.
  intros Hd. induction ws as [|w r IH]; intros H x Hx; [set_solver |].
  destruct H as (H1 & H2 & H3). apply elem_of_cons in Hx as [->|Hx]; [| by apply IH].
  destruct r as [|w' r']; simpl in H2; [lra |].
  pose proof (IH H3 w' ltac:(set_solver)). destruct H3 as (H4 & _). lra.
Qed.

Lemma drop_ended_all st (ws : list (window D)) :
  (forall w, w ∈ ws -> w_end w < st) -> drop_ended st ws = [].
Proof.
  induction ws as [|w r IH]; intros H; [done |]. simpl.
  assert (qlt (w_end w) st = true) as -> by (apply qlt_true, H; set_solver).
  apply IH. intros x Hx. apply H. set_solver.
Qed.

Lemma on_grid_add t0 dur q (k : Z) :
  on_grid t0 dur q -> on_grid t0 dur (q + dur * inject_Z k).
Proof.
  intros [j Hj]. exists (j + k)%Z. rewrite Hj, inject_Z_plus. ring.
Qed.

Lemma add_window_grid t0 dur (s : t D) : grid_inv t0 dur s -> grid_inv t0 dur (_add_window s).
Proof.
  intros (Hd & Hns & Ht & Hw). unfold _add_window. rewrite Hd. split_and!; simpl.
  - done.
  - pose proof (on_grid_add t0 dur _ 1 Hns) as [j Hj]. exists j. rewrite <- Hj.
    change (inject_Z 1) with 1. ring.
  - by apply tiled_snoc.
  - intros w Hx. apply elem_of_app in Hx as [Hx|Hx]; [by apply Hw |].
    apply list_elem_of_singleton in Hx as ->. exact Hns.
Qed.

Lemma first_put_grid t0 dur topic st (s s1 : t D) :
  0 < dur -> grid_inv t0 dur s -> _first_put topic st s = Ok s1 -> grid_inv t0 dur s1.
Proof.
  intros Hpos (Hd & Hns & Ht & Hw) H. unfold _first_put in H.
  destruct (qlt (_next_start_time s) st) eqn:E.
  - destruct (py_div _ _) as [q|]; [| done]. simpl in H. injection H as <-.
    apply qlt_true in E. rewrite Hd.
    rewrite (drop_ended_all st (_windows s)).
    + split_and!; simpl; [done | by apply on_grid_add | done | set_solver].
    + intros w Hx. pose proof (tiled_ends_le _ _ _ Hpos Ht w Hx). lra.
  - simpl in H. injection H as <-. destruct (drop_ended_drop st (_windows s)) as [k Hk].
    rewrite Hk. split_and!; simpl; [done | done | by apply tiled_drop |].
    intros w Hx. apply Hw. by apply (elem_of_drop_l _ k).
Qed.

Lemma fill_grid t0 dur n et (s s' : t D) :
  grid_inv t0 dur s -> fill n et s = Ok s' -> grid_inv t0 dur s'.
Proof.
  revert s; induction n as [|n IH]; intros s Hs H; simpl in H;
    destruct (py_index (_windows s) (-1)) as [wl|]; try done; simpl in H;
    destruct (qle (w_start wl) et); try done.
  - by injection H as <-.
  - exact (IH _ (add_window_grid _ _ _ Hs) H).
  - by injection H as <-.
Qed.

(** The loop of [put] keeps every window's start and end. *)
Lemma scan_bounds topic (d : D) st et (ws ws' : list (window D)) :
  scan topic d st et ws = Ok ws' ->
  map (fun w => (w_start w, w_end w)) ws' = map (fun w => (w_start w, w_end w)) ws.
Proof.
  revert ws'; induction ws as [|w r IH]; intros ws' H; simpl in H.
  - by injection H as <-.
  - destruct (qle (w_end w) st).
    + destruct (scan topic d st et r) as [r'|] eqn:E; [| done]. simpl in H.
      injection H as <-. simpl. by rewrite (IH r').
    + destruct (qlt et (w_start w)); [by injection H as <- |].
      destruct (_overlap _ _ _ _) as [o|]; [| done]. simpl in H.
      destruct (getitem _ _) as [ov|]; [| done]. simpl in H.
      destruct (scan topic d st et r) as [r'|] eqn:E; [| done]. simpl in H.
      injection H as <-. simpl. rewrite (IH r' eq_refl). by destruct (qlt ov o).
Qed.

Lemma tiled_bounds dur ns (ws ws' : list (window D)) :
  map (fun w => (w_start w, w_end w)) ws' = map (fun w => (w_start w, w_end w)) ws ->
  tiled dur ns ws -> tiled dur ns ws'.
Proof.
  revert ws; induction ws' as [|w' r' IH]; intros ws Hm H; [done |].
  destruct ws as [|w r]; [done |]. simpl in Hm. injection Hm as Ha Hb Hr.
  destruct H as (H1 & H2 & H3). simpl. rewrite Ha, Hb. split_and!; [done | | exact (IH r Hr H3)].
  destruct r' as [|x r'], r as [|y r]; try done. simpl in Hr. injection Hr as Hx _ _.
  simpl. by rewrite Hx.
Qed.

Lemma bounds_in (ws ws' : list (window D)) w' :
  map (fun w => (w_start w, w_end w)) ws' = map (fun w => (w_start w, w_end w)) ws ->
  w' ∈ ws' -> exists w, w ∈ ws /\ w_start w' = w_start w.
Proof.
  revert ws; induction ws' as [|x r' IH]; intros ws Hm Hx; [set_solver |].
  destruct ws as [|y r]; [done |]. simpl in Hm. injection Hm as Ha _ Hr.
  apply elem_of_cons in Hx as [->|Hx].
  - exists y. split; [set_solver | done].
  - destruct (IH r Hr Hx) as [w [Hw Hs]]. exists w. split; [set_solver | done].
Qed.

Lemma put_grid t0 dur topic (d : D) st et (s s' : t D) :
  0 < dur -> grid_inv t0 dur s -> put topic d st et s = Ok s' -> grid_inv t0 dur s'.
Proof.
  intros Hpos Hs H. unfold put in H.
  destruct (getitem (_initialized s) topic) as [init|]; [| done]. simpl in H.
  destruct (if init then Ok s else _first_put topic st s) as [s1|] eqn:Hs1e; [| done].
  simpl in H.
  assert (Hs1 : grid_inv t0 dur s1)
    by (destruct init; [by injection Hs1e as <- | exact (first_put_grid _ _ _ _ _ _ Hpos Hs Hs1e)]).
  set (s2 := match _windows s1 with [] => _add_window s1 | _ :: _ => s1 end) in H.
  assert (Hs2 : grid_inv t0 dur s2)
    by (subst s2; destruct (_windows s1); [by apply add_window_grid | done]).
  destruct (py_index (_windows s2) 0) as [w0|]; [| done]. simpl in H.
  destruct (qlt et (w_start w0)); [by injection H as <- |].
  destruct (fill _ et s2) as [s3|] eqn:Hf; [| done]. simpl in H.
  pose proof (fill_grid _ _ _ _ _ _ Hs2 Hf) as (Hd3 & Hns3 & Ht3 & Hw3).
  destruct (scan _ _ _ _ _) as [ws|] eqn:Hsc; [| done]. simpl in H. injection H as <-.
  pose proof (scan_bounds _ _ _ _ _ _ Hsc) as Hb.
  split_and!; simpl; [done | done | exact (tiled_bounds _ _ _ _ Hb Ht3) |].
  intros w Hw. destruct (bounds_in _ _ w Hb Hw) as [x [Hx ->]]. by apply Hw3.
Qed.

Lemma next_grid t0 dur (s s' : t D) out :
  grid_inv t0 dur s -> next s = Ok (out, s') -> grid_inv t0 dur s'.
Proof.
  intros (Hd & Hns & Ht & Hw) H. destruct (next_meta _ _ _ H) as (E1 & E2 & _ & _ & w & E).
  rewrite E in Ht, Hw. unfold grid_inv. rewrite E1, E2. split_and!; [done | done | apply Ht |].
  intros x Hx. apply Hw. set_solver.
Qed.

End CombinerGrid.

Section CombinerStatus.
Context {D : Type}.
Import Combiner.

(** What [step] does to the status of its own topic. *)
Lemma step_status topic (d : D) st et (w : window D) :
  statuses (step topic d st et w) !! topic
  = if qle (w_end w) st then Some true else statuses w !! topic.
Proof.
  unfold step. destruct (qle _ _); [simpl; by rewrite lookup_insert_eq |].
  destruct (qlt _ _); [done |]. destruct (overlaps w !! topic); [| done].
  by destruct (qlt _ _).
Qed.

End CombinerStatus.

(** X5 (Combiner.put, Combiner.__init__). On a combiner reached from
    [Combiner(start_time, window_duration, topics)] by any calls, a [put] on
    a topic not in [topics] raises KeyError (at [self._initialized[topic]]). *)
Theorem Combiner_put_unknown_topic_KeyError {D} start dur topics (ops : list (Combiner.op D))
    (s : Combiner.t D) topic (d : D) st et :
  (s0 ← Combiner.__init__ start dur topics; Combiner.run ops s0) = Ok s ->
  topic ∉ topics -> Combiner.put topic d st et s = Err KeyError.
Proof.
  intros H Hn. destruct (reach_keys _ _ _ _ _ H) as [_ Hk].
  unfold Combiner.put, getitem.
  destruct (Combiner._initialized s !! topic) eqn:E; [| reflexivity].
  exfalso. apply Hn, Hk. by rewrite E.
Qed.

Lemma Combiner_put_unknown_topic_KeyError_witness :
  exists s : Combiner.t nat,
    (s0 ← Combiner.__init__ 0 10 ["x"]%string;
     Combiner.run [Combiner.OPut "x"%string 1%nat 0 5] s0) = Ok s
    /\ Combiner.put "z"%string 2%nat 0 5 s = Err KeyError.
Proof.
  eexists. split; [vm_compute; reflexivity |].
  apply (Combiner_put_unknown_topic_KeyError 0 10 ["x"]%string [Combiner.OPut "x"%string 1%nat 0 5]).
  - vm_compute. reflexivity.
  - set_solver.
Defined.

(** X6 (Combiner._add_window, Combiner.put, Combiner.next). On a combiner
    reached from [Combiner(start_time, window_duration, topics)] with a
    positive duration by any calls, the next-window-start pointer and every
    window's start are [start_time] plus a whole multiple of the duration,
    and the queued windows are each one duration long and follow each other
    without gap or overlap, the last one ending at the pointer. *)
Theorem Combiner_windows_on_grid {D} start dur topics (ops : list (Combiner.op D))
    (s : Combiner.t D) :
  0 < dur -> (s0 ← Combiner.__init__ start dur topics; Combiner.run ops s0) = Ok s ->
  on_grid start dur (Combiner._next_start_time s)
  /\ tiled dur (Combiner._next_start_time s) (Combiner._windows s)
  /\ forall w, w ∈ Combiner._windows s -> on_grid start dur (Combiner.w_start w).
Proof.
  intros Hd H. simpl in H.
  assert (G : grid_inv start dur s).
  { apply (run_inv (fun _ _ => True) (grid_inv start dur) ops
             (Combiner.mk start dur topics (dict_of topics false) []) s); [| | | | exact H].
    - intros ? ? ? ? s1 s2 Hs _ Hp. exact (put_grid _ _ _ _ _ _ _ _ Hd Hs Hp).
    - intros s1 out s2 Hs Hn. exact (next_grid _ _ _ _ _ Hs Hn).
    - apply Forall_forall. intros [] _; done.
    - split_and!; simpl; [done | | done | set_solver]. exists 0%Z. simpl. ring. }
  destruct G as (_ & G1 & G2 & G3). split_and!; [exact G1 | exact G2 | exact G3].
Qed.

Lemma Combiner_windows_on_grid_witness :
  exists s : Combiner.t nat,
    (s0 ← Combiner.__init__ 0 10 ["x"]%string;
     Combiner.run [Combiner.OPut "x"%string 1%nat 3 25] s0) = Ok s
    /\ on_grid 0 10 (Combiner._next_start_time s)
    /\ tiled 10 (Combiner._next_start_time s) (Combiner._windows s)
    /\ forall w, w ∈ Combiner._windows s -> on_grid 0 10 (Combiner.w_start w).
Proof.
  eexists. split; [vm_compute; reflexivity |].
  apply (Combiner_windows_on_grid 0 10 ["x"]%string [Combiner.OPut "x"%string 1%nat 3 25]).
  - lra.
  - vm_compute. reflexivity.
Defined.

(** X7 (Combiner.put, Combiner.next). On a combiner reached from
    [Combiner(start_time, window_duration, topics)] with a positive duration
    by calls whose data have start_time <= end_time, calls that concern no
    datum of a topic in [topics] ([next], or [put] on another topic) leave
    that topic's slot alone: a window present afterwards either was there
    before with the same start and end, and has the same datum and overlap
    for the topic, or is new and holds None with overlap 0 for it. *)
Theorem Combiner_other_topics_keep_slot {D} start dur topics (ops ops' : list (Combiner.op D))
    (s s' : Combiner.t D) topic w W' :
  0 < dur -> Forall well_timed ops ->
  (s0 ← Combiner.__init__ start dur topics; Combiner.run ops s0) = Ok s ->
  topic ∈ topics -> Forall (Combiner.other_op topic) ops' -> Combiner.run ops' s = Ok s' ->
  Combiner.window_at s' w = Some W' ->
  (exists W, Combiner.window_at s w = Some W
     /\ Combiner.w_start W' = Combiner.w_start W /\ Combiner.w_end W' = Combiner.w_end W
     /\ Combiner.data W' !! topic = Combiner.data W !! topic
     /\ Combiner.overlaps W' !! topic = Combiner.overlaps W !! topic)
  \/ (Combiner.window_at s w = None
      /\ Combiner.data W' !! topic = Some None /\ Combiner.overlaps W' !! topic = Some 0).
Proof.
  intros Hd Hall H Ht Hother Hr HW.
  pose proof (reach_wf _ _ _ _ _ Hd Hall H) as Hs.
  destruct (reach_keys _ _ _ _ _ H) as [Htop _].
  destruct (run_other topic ops' s s' Hs ltac:(by rewrite Htop) Hother Hr) as (_ & _ & _ & Hw).
  destruct (Hw w W' HW) as [Hold | (HN & _ & Hdat & Hov)]; [by left | by right].
Qed.

Lemma Combiner_other_topics_keep_slot_witness :
  exists (s s' : Combiner.t nat) W',
    (s0 ← Combiner.__init__ 0 10 ["x"; "y"]%string;
     Combiner.run [Combiner.OPut "x"%string 1%nat 0 5] s0) = Ok s
    /\ Combiner.run [Combiner.OPut "y"%string 2%nat 2 15; Combiner.ONext] s = Ok s'
    /\ Combiner.window_at s' 10 = Some W'
    /\ ((exists W, Combiner.window_at s 10 = Some W
          /\ Combiner.w_start W' = Combiner.w_start W /\ Combiner.w_end W' = Combiner.w_end W
          /\ Combiner.data W' !! "x"%string = Combiner.data W !! "x"%string
          /\ Combiner.overlaps W' !! "x"%string = Combiner.overlaps W !! "x"%string)
        \/ (Combiner.window_at s 10 = None
            /\ Combiner.data W' !! "x"%string = Some None
            /\ Combiner.overlaps W' !! "x"%string = Some 0)).
Proof.
  let s := ok_val (s0 ← Combiner.__init__ (D:=nat) 0 10 ["x"; "y"]%string;
                    Combiner.run [Combiner.OPut "x"%string 1%nat 0 5] s0) in
  let s' := ok_val (Combiner.run [Combiner.OPut "y"%string 2%nat 2 15; Combiner.ONext] s) in
  let W' := ok_val (Combiner.window_at s' 10) in
  exists s, s', W';
  split; [vm_compute; reflexivity |];
  split; [vm_compute; reflexivity |]; split; [vm_compute; reflexivity |];
  apply (Combiner_other_topics_keep_slot 0 10 ["x"; "y"]%string
           [Combiner.OPut "x"%string 1%nat 0 5]
           [Combiner.OPut "y"%string 2%nat 2 15; Combiner.ONext] s s');
  [ lra
  | constructor; [simpl; lra | constructor]
  | vm_compute; reflexivity
  | set_solver
  | constructor; [simpl; split; [done | lra] | constructor; [done | constructor]]
  | vm_compute; reflexivity
  | vm_compute; reflexivity ].
Defined.

(** X8 (Combiner.put). On a combiner reached from
    [Combiner(start_time, window_duration, topics)] with a positive duration
    by calls whose data have start_time <= end_time, after
    [put(topic, datum, start_time, end_time)] with start_time <= end_time a
    window is marked ready for [topic] exactly when it ends at or before
    start_time, or it was already there and marked before. *)
Theorem Combiner_put_marks_ended {D} start dur topics (ops : list (Combiner.op D))
    (s s' : Combiner.t D) topic (d : D) st et w W' :
  0 < dur -> Forall well_timed ops ->
  (s0 ← Combiner.__init__ start dur topics; Combiner.run ops s0) = Ok s ->
  st <= et -> Combiner.put topic d st et s = Ok s' -> Combiner.window_at s' w = Some W' ->
  (Combiner.statuses W' !! topic = Some true
   <-> Combiner.w_end W' <= st
       \/ exists W0, Combiner.window_at s w = Some W0
                     /\ Combiner.statuses W0 !! topic = Some true).
Proof.
  intros Hd Hall H Hse Hp HW.
  pose proof (reach_wf _ _ _ _ _ Hd Hall H) as Hs.
  destruct (put_spec _ _ _ _ _ _ Hs Hse Hp) as (_ & Ht & _).
  destruct (put_window_at _ _ _ _ _ _ _ _ Hs Hse Hp HW) as [(W0 & HW0 & ->) | (HN & _ & Heq)].
  - rewrite step_status, step_end. destruct (qle (Combiner.w_end W0) st) eqn:E.
    + apply qle_true in E. split; [by left | done].
    + apply qle_false in E. split.
      * intros Hst. right. by exists W0.
      * intros [Hle | (W1 & HW1 & Hst)]; [lra |]. rewrite HW0 in HW1.
        by injection HW1 as <-.
  - pose proof (f_equal (fun x => Combiner.statuses x !! topic) Heq) as Hst.
    cbv beta in Hst. rewrite step_status in Hst.
    unfold Combiner.blank in Hst. simpl in Hst.
    rewrite Hst. rewrite dict_of_lookup, decide_True by done.
    destruct (qle (Combiner.w_end W') st) eqn:E.
    + apply qle_true in E. split; [by left | done].
    + apply qle_false in E. split; [done |].
      intros [Hle | (W1 & HW1 & _)]; [lra | by rewrite HN in HW1].
Qed.

Lemma Combiner_put_marks_ended_witness :
  exists (s s' : Combiner.t nat) W',
    (s0 ← Combiner.__init__ 0 10 ["x"; "y"]%string;
     Combiner.run [Combiner.OPut "y"%string 1%nat 0 25; Combiner.OPut "x"%string 0%nat 0 1] s0) = Ok s
    /\ Combiner.put "x"%string 2%nat 12 15 s = Ok s'
    /\ Combiner.window_at s' 0 = Some W'
    /\ (Combiner.statuses W' !! "x"%string = Some true
        <-> Combiner.w_end W' <= 12
            \/ exists W0, Combiner.window_at s 0 = Some W0
                          /\ Combiner.statuses W0 !! "x"%string = Some true).
Proof.
  let s := ok_val (s0 ← Combiner.__init__ (D:=nat) 0 10 ["x"; "y"]%string;
                    Combiner.run [Combiner.OPut "y"%string 1%nat 0 25; Combiner.OPut "x"%string 0%nat 0 1] s0) in
  let s' := ok_val (Combiner.put "x"%string 2%nat 12 15 s) in
  let W' := ok_val (Combiner.window_at s' 0) in
  exists s, s', W';
  split; [vm_compute; reflexivity |];
  split; [vm_compute; reflexivity |]; split; [vm_compute; reflexivity |];
  apply (Combiner_put_marks_ended 0 10 ["x"; "y"]%string [Combiner.OPut "y"%string 1%nat 0 25; Combiner.OPut "x"%string 0%nat 0 1]
           s s' "x"%string 2%nat 12 15);
  [ lra
  | constructor; [simpl; lra | constructor; [simpl; lra | constructor]]
  | vm_compute; reflexivity
  | lra
  | vm_compute; reflexivity
  | vm_compute; reflexivity ].
Defined.

(* ===================================================================== *)
(** ** History: the histories handed out *)
(* ===================================================================== *)

Section HistorySliding.
Import History HistoryRun.

Lemma feed_state {D} (xs : list (D * Q * Q)) L ds ts :
  feed xs (mk L ds ts)
  = mk L (ds ++ map (fun x => x.1.1) xs) (ts ++ map (fun x => (x.1.2, x.2)) xs).
Proof.
  revert ds ts; induction xs as [|[[d a] b] r IH]; intros ds ts; simpl.
  - by rewrite !app_nil_r.
  - unfold put. simpl. rewrite IH. by rewrite <- !app_assoc.
Qed.

Lemma drain_sliding {D} (l : nat) (ds : list D) (ts : list (Q * Q)) fuel :
  length ts = length ds -> (length ds - l < fuel)%nat ->
  drain fuel (mk (Z.of_nat l) ds ts)
  = Ok (imap (fun i ab => (take l (drop i ds), ab.1, ab.2)) (drop l ts),
        mk (Z.of_nat l) (drop (length ds - l) ds) (drop (length ds - l) ts)).
Proof.
  revert ts fuel; induction ds as [|d ds' IH]; intros ts fuel Hlen Hf;
    (destruct fuel as [|n]; [lia |]); simpl.
  - destruct ts; [| done]. unfold next. simpl.
    rewrite (proj2 (Z.leb_le _ _)) by lia. by rewrite drop_nil.
  - destruct ts as [|t ts']; [done |]. simpl in Hlen.
    unfold next. simpl.
    destruct (decide (S (length ds') <= l)%nat) as [Hle|Hgt].
    + rewrite (proj2 (Z.leb_le _ _)) by lia.
      rewrite (drop_ge (t :: ts')) by (simpl; lia).
      replace (S (length ds') - l)%nat with 0%nat by lia. reflexivity.
    + rewrite (proj2 (Z.leb_gt _ _)) by lia.
      unfold py_index, py_slice_to.
      rewrite (proj2 (Z.ltb_ge _ _)) by lia. simpl.
      rewrite (proj2 (Z.ltb_ge _ _)) by lia. rewrite Nat2Z.id.
      destruct ((t :: ts') !! l) as [ab|] eqn:Eab;
        [| apply lookup_ge_None in Eab; simpl in Eab; lia].
      simpl in Hf |- *. rewrite (IH ts' n) by lia. simpl.
      rewrite (drop_S (t :: ts') ab l Eab), imap_cons.
      replace (S (length ds') - l)%nat with (S (length ds' - l)) by lia.
      destruct l as [|l']; simpl.
      * simpl in Eab. injection Eab as <-. reflexivity.
      * reflexivity.
Qed.

End HistorySliding.

(** X9 (History.put, History.next). For a length L >= 0, after putting
    data x_0 ... x_(n-1) into a fresh [History(L)] and calling [next] until
    it raises StopIteration, the histories handed out are, for each i with
    i + L < n, the data x_i ... x_(i+L-1) with the start and end time of
    x_(i+L); the buffer keeps the last L data (all of them if n <= L) with
    their times. *)
Theorem History_drain_sliding {D} (L : Z) (xs : list (D * Q * Q)) :
  (0 <= L)%Z ->
  let ds := map (fun x => x.1.1) xs in
  let ts := map (fun x => (x.1.2, x.2)) xs in
  HistoryRun.drain_all (HistoryRun.feed xs (History.mk L [] []))
  = Ok (imap (fun i ab => (take (Z.to_nat L) (drop i ds), ab.1, ab.2)) (drop (Z.to_nat L) ts),
        History.mk L (drop (length xs - Z.to_nat L) ds) (drop (length xs - Z.to_nat L) ts)).
Proof.
  intros HL ds ts. subst ds ts. rewrite feed_state, !app_nil_l.
  unfold HistoryRun.drain_all. cbn [History._data].
  pose proof (drain_sliding (Z.to_nat L) (map (fun x => x.1.1) xs)
                (map (fun x => (x.1.2, x.2)) xs) (S (length (map (fun x => x.1.1) xs)))) as H.
  rewrite Z2Nat.id in H by done.
  rewrite H; [| by rewrite !length_map | lia].
  by rewrite length_map.
Qed.

Lemma History_drain_sliding_witness :
  (0 <= 2)%Z /\
  HistoryRun.drain_all (HistoryRun.feed [(1%nat, 0, 1); (2%nat, 1, 2); (3%nat, 2, 3); (4%nat, 3, 4)]
                          (History.mk 2 [] []))
  = Ok (imap (fun i ab => (take (Z.to_nat 2) (drop i (map (fun x => x.1.1)
             [(1%nat, 0, 1); (2%nat, 1, 2); (3%nat, 2, 3); (4%nat, 3, 4)])), ab.1, ab.2))
          (drop (Z.to_nat 2) (map (fun x => (x.1.2, x.2))
             [(1%nat, 0, 1); (2%nat, 1, 2); (3%nat, 2, 3); (4%nat, 3, 4)])),
        History.mk 2
          (drop (4 - Z.to_nat 2) (map (fun x => x.1.1)
             [(1%nat, 0, 1); (2%nat, 1, 2); (3%nat, 2, 3); (4%nat, 3, 4)]))
          (drop (4 - Z.to_nat 2) (map (fun x => (x.1.2, x.2))
             [(1%nat, 0, 1); (2%nat, 1, 2); (3%nat, 2, 3); (4%nat, 3, 4)]))).
Proof.
  split; [lia |].
  exact (History_drain_sliding 2 [(1%nat, 0, 1); (2%nat, 1, 2); (3%nat, 2, 3); (4%nat, 3, 4)]
           ltac:(lia)).
Defined.

(** X10 (BlockBuffer.next, BlockBuffer.num_blocks). For a positive block
    size, [num_blocks] is the number of blocks [next] can still hand out:
    [next] raises StopIteration exactly when [num_blocks] is 0, and
    otherwise does not raise but hands out the first [block_size] items, leaves the rest, and
    [num_blocks] drops by one. *)
Theorem BlockBuffer_num_blocks_next {E} (s : BlockBuffer.t E) (n : Z) :
  (0 < BlockBuffer._block_size s)%Z -> BlockBuffer.num_blocks s = Ok n ->
  (BlockBuffer.next s = Err StopIteration <-> n = 0%Z)
  /\ (n <> 0%Z -> exists blk s', BlockBuffer.next s = Ok (blk, s'))
  /\ forall blk s', BlockBuffer.next s = Ok (blk, s') ->
       Z.of_nat (length blk) = BlockBuffer._block_size s
       /\ blk ++ BlockBuffer._buffer s' = BlockBuffer._buffer s
       /\ BlockBuffer._block_size s' = BlockBuffer._block_size s
       /\ BlockBuffer.num_blocks s' = Ok (n - 1)%Z.
Proof.
  destruct s as [bs buf]. simpl. intros Hbs Hn.
  unfold BlockBuffer.num_blocks in Hn. simpl in Hn.
  rewrite (proj2 (Z.eqb_neq _ _)) in Hn by lia. injection Hn as <-.
  unfold BlockBuffer.next, py_slice_to, py_slice_from. simpl.
  rewrite (proj2 (Z.ltb_ge bs 0)) by lia.
  destruct (Z.of_nat (length buf) <? bs)%Z eqn:Elt.
  - apply Z.ltb_lt in Elt. assert (H0 : (Z.of_nat (length buf) / bs = 0)%Z) by (apply Z.div_small; lia).
    split_and!.
    + split; [intros _; exact H0 | done].
    + done.
    + done.
  - apply Z.ltb_ge in Elt. split_and!.
    + split; [done |]. intros H0. exfalso.
      assert (1 <= Z.of_nat (length buf) / bs)%Z; [| lia].
      apply (Z.div_le_mono bs _ bs) in Elt; [| lia]. by rewrite Z.div_same in Elt by lia.
    + intros _. by do 2 eexists.
    + intros blk s' H. injection H as <- <-. simpl. split_and!.
      * rewrite length_take. lia.
      * apply take_drop.
      * done.
      * unfold BlockBuffer.num_blocks. simpl. rewrite (proj2 (Z.eqb_neq _ _)) by lia.
        f_equal. rewrite length_drop, Nat2Z.inj_sub by lia. rewrite Z2Nat.id by lia.
        replace (Z.of_nat (length buf)) with (Z.of_nat (length buf) - bs + 1 * bs)%Z at 2
          by lia.
        rewrite Z.div_add by lia. lia.
Qed.

Lemma BlockBuffer_num_blocks_next_witness :
  (0 < BlockBuffer._block_size (BlockBuffer.mk 2 [1; 2; 3; 4; 5]%nat))%Z
  /\ BlockBuffer.num_blocks (BlockBuffer.mk 2 [1; 2; 3; 4; 5]%nat) = Ok 2%Z
  /\ (BlockBuffer.next (BlockBuffer.mk 2 [1; 2; 3; 4; 5]%nat) = Err StopIteration <-> 2%Z = 0%Z)
  /\ (2%Z <> 0%Z -> exists blk s', BlockBuffer.next (BlockBuffer.mk 2 [1; 2; 3; 4; 5]%nat) = Ok (blk, s'))
  /\ forall blk s', BlockBuffer.next (BlockBuffer.mk 2 [1; 2; 3; 4; 5]%nat) = Ok (blk, s') ->
       Z.of_nat (length blk) = BlockBuffer._block_size (BlockBuffer.mk 2 [1; 2; 3; 4; 5]%nat)
       /\ blk ++ BlockBuffer._buffer s' = BlockBuffer._buffer (BlockBuffer.mk 2 [1; 2; 3; 4; 5]%nat)
       /\ BlockBuffer._block_size s' = BlockBuffer._block_size (BlockBuffer.mk 2 [1; 2; 3; 4; 5]%nat)
       /\ BlockBuffer.num_blocks s' = Ok (2 - 1)%Z.
Proof.
  split; [simpl; lia |]. split; [reflexivity |].
  apply (BlockBuffer_num_blocks_next (BlockBuffer.mk 2 [1; 2; 3; 4; 5]%nat) 2); [simpl; lia |].
  reflexivity.
Defined.

(* ===================================================================== *)
(** ** Counter: [next] hands out the queue in order *)
(* ===================================================================== *)

Section CounterRunFacts.
Context {D : Type} (is_valid : D -> bool).

Lemma puts_buffer_app (xs : list (D * Q * Q)) c buf :
  Counter._buffer (Counter.puts is_valid xs (Counter.mk c buf))
  = buf ++ Counter._buffer (Counter.puts is_valid xs (Counter.mk c []))
  /\ Counter._counter (Counter.puts is_valid xs (Counter.mk c buf))
     = Counter._counter (Counter.puts is_valid xs (Counter.mk c [])).
Proof.
  revert c buf; induction xs as [|[[d a] b] r IH]; intros c buf; simpl.
  - by rewrite app_nil_r.
  - unfold Counter.put. simpl.
    destruct (is_valid d).
    + destruct (IH (S c) (buf ++ [(c, a, b)])) as [E1 E2].
      destruct (IH (S c) [(c, a, b)]) as [E3 E4].
      rewrite E1, E2, E3, E4. by rewrite <- app_assoc.
    + destruct (IH 0%nat (buf ++ [(c, a, b)])) as [E1 E2].
      destruct (IH 0%nat [(c, a, b)]) as [E3 E4].
      rewrite E1, E2, E3, E4. by rewrite <- app_assoc.
Qed.

Lemma run_as_puts (ops : list (CounterRun.op D)) (s : Counter.t) :
  let res := CounterRun.run is_valid ops s in
  res.1 ++ Counter._buffer res.2
    = Counter._buffer (Counter.puts is_valid (CounterRun.put_items ops) s)
  /\ Counter._counter res.2
     = Counter._counter (Counter.puts is_valid (CounterRun.put_items ops) s).
Proof.
  revert s; induction ops as [|[d a b|] r IH]; intros s; simpl.
  - done.
  - apply IH.
  - unfold Counter.next. destruct s as [c buf]. simpl.
    destruct buf as [|x rest]; [apply IH |]. simpl.
    destruct (IH (Counter.mk c rest)) as [E1 E2].
    destruct (puts_buffer_app (CounterRun.put_items r) c rest) as [E3 E4].
    destruct (puts_buffer_app (CounterRun.put_items r) c (x :: rest)) as [E5 E6].
    split.
    + rewrite E1, E3, E5. reflexivity.
    + rewrite E2, E4, E6. reflexivity.
Qed.

End CounterRunFacts.

(** X11 (Counter.next, Counter.put). For any interleaving of [put] and
    [next] calls on a fresh [Counter], the entries [next] hands out, followed
    by the entries still queued, are exactly the entries the same [put]s
    alone would queue, in order: one per datum with the run of valid data
    just before it and its times. [next] neither loses nor reorders entries,
    and the counter ends as the length of the final run of valid data. *)
Theorem Counter_next_fifo {D} (is_valid : D -> bool) (ops : list (CounterRun.op D)) :
  let res := CounterRun.run is_valid ops Counter.__init__ in
  res.1 ++ Counter._buffer res.2
    = imap (fun i x => (run_before is_valid (map datum_of (take i (CounterRun.put_items ops))),
                        x.1.2, x.2)) (CounterRun.put_items ops)
  /\ Counter._counter res.2 = run_before is_valid (map datum_of (CounterRun.put_items ops)).
Proof.
  simpl. destruct (run_as_puts is_valid ops Counter.__init__) as [E1 E2].
  rewrite E1, E2, Counter_puts_state. split; reflexivity.
Qed.

(* ===================================================================== *)
(** ** Window: no window is ever produced *)
(* ===================================================================== *)

(** X12 (Window.put, Window._initialize_current). On a fresh
    [Window(start_time, window_duration)], a sequence of [put] calls leaves
    the grouper exactly as it was built when every datum ends before
    [start_time]; otherwise the first datum that does not raises NameError
    (for [start_time] in [_initialize_current]). No window is ever queued. *)
Theorem Window_puts_never_window {D} (st dur : Q) (ps : list (D * Q * Q)) :
  (s0 ← Window.__init__ st dur; WindowRun.puts ps s0)
  = if forallb (fun p => qlt p.2 st) ps then Ok (Window.mk st dur [] None)
    else Err (NameError "start_time").
Proof.
  simpl. induction ps as [|[[d a] b] r IH]; [reflexivity |]. simpl.
  unfold Window.put, Window.put_in. simpl.
  destruct (qlt b st); simpl; [exact IH | reflexivity].
Qed.

(* ===================================================================== *)
(** ** Combiner: the overlap fraction *)
(* ===================================================================== *)

(** X13 (Combiner._overlap). For a datum with start_time <= end_time and a
    window [w_start, w_end] with w_start < w_end, [_overlap] does not raise
    and returns a fraction between 0 and 1; it is 1 when the datum covers
    the whole window. *)
Theorem Combiner_overlap_fraction st et a b :
  st <= et -> a < b ->
  exists o, Combiner._overlap st et a b = Ok o /\ 0 <= o <= 1
    /\ (st <= a -> b <= et -> o == 1).
Proof.
  intros Hse Hab. exists (overlap_val st et a b). rewrite overlap_ok by done.
  split_and!; [reflexivity | by apply overlap_nonneg | |].
  - unfold overlap_val.
    destruct (qlt b st) eqn:E1; [simpl; lra |].
    destruct (qlt et a) eqn:E2; [simpl; lra |]. simpl.
    apply Qle_shift_div_r; [lra |]. unfold py_min, py_max. qcase; lra.
  - intros Ha Hb. unfold overlap_val.
    assert (qlt b st = false) as -> by (apply qlt_false; lra).
    assert (qlt et a = false) as -> by (apply qlt_false; lra). simpl.
    unfold py_min, py_max.
    assert (qlt b et = false \/ qlt b et = true) as [Eb|Eb] by (destruct (qlt b et); auto);
      rewrite Eb;
      (assert (qlt st a = true \/ qlt st a = false) as [Ea|Ea] by (destruct (qlt st a); auto));
      rewrite Ea; try (apply qlt_true in Eb || apply qlt_false in Eb);
      try (apply qlt_true in Ea || apply qlt_false in Ea);
      (* the numerator equals the window length *)
      first [ assert (Hq : et == b) by lra; rewrite Hq | idtac ];
      first [ assert (Hq' : st == a) by lra; rewrite Hq' | idtac ];
      unfold Qdiv; apply Qmult_inv_r; lra.
Qed.

Lemma Combiner_overlap_fraction_witness :
  (1 <= 3 /\ 0 < 10) /\
  exists o, Combiner._overlap 1 3 0 10 = Ok o /\ 0 <= o <= 1
    /\ (1 <= 0 -> 10 <= 3 -> o == 1).
Proof.
  split; [split; lra |].
  apply Combiner_overlap_fraction; lra.
Defined.

(** X14 (Combiner._overlap). For a zero-length window [w_start = w_end]
    that a datum reaches (start_time <= w_start <= end_time), [_overlap]
    raises ZeroDivisionError. *)
Theorem Combiner_overlap_empty_window st et a :
  st <= a -> a <= et -> Combiner._overlap st et a a = Err ZeroDivisionError.
Proof.
  intros H1 H2. unfold Combiner._overlap.
  assert (qlt a st = false) as -> by (apply qlt_false; lra).
  assert (qlt et a = false) as -> by (apply qlt_false; lra). simpl.
  unfold py_div. assert (Qeq_bool (a - a) 0 = true) as -> by (apply Qeq_bool_iff; ring).
  reflexivity.
Qed.

Lemma Combiner_overlap_empty_window_witness :
  (0 <= 5 /\ 5 <= 8) /\ Combiner._overlap 0 8 5 5 = Err ZeroDivisionError.
Proof.
  split; [split; lra |].
  apply Combiner_overlap_empty_window; lra.
Defined.
